(** * Vantagics analytics skills: cohort retention and sales funnel

    A shallow embedding of the aggregation logic of
    [skills/cohort_analysis/cohort_analysis.py] and
    [skills/sales_funnel/sales_funnel.py], with the properties of the
    repository's specification stated and proved over it.

    Conventions of the embedding.
    - A pandas column is a [list]; a DataFrame produced by [pivot] is a
      [frame] (row labels, column labels, matrix of cells).
    - float64 values are exact rationals ([Q]); a missing cell (NaN) is
      [None].  Rounding of the binary floating-point operations is not
      modelled.
    - An uncaught Python exception is [Raise e]; a script run ends in an
      [outcome]. *)

From Stdlib Require Import ZArith QArith Lia String Ascii.
From stdpp Require Import base list sorting strings.

Local Open Scope string_scope.
Local Open Scope Z_scope.
Local Open Scope list_scope.

(** ** Exceptions and results *)

Inductive py_exn : Type :=
  | SyntaxError
  | NameError
  | KeyError
  | IndexError
  | ValueError.

Inductive result (A : Type) : Type :=
  | Ok (a : A)
  | Raise (e : py_exn).

Arguments Ok {A} a.
Arguments Raise {A} e.

Definition bind {A B : Type} (r : result A) (k : A -> result B) : result B :=
  match r with
  | Ok a => k a
  | Raise e => Raise e
  end.

Notation "x <-- r ;; k" := (bind r (fun x => k))
  (at level 100, r at next level, right associativity).

Definition lift {A : Type} (e : py_exn) (o : option A) : result A :=
  match o with
  | Some a => Ok a
  | None => Raise e
  end.

Fixpoint mapR {A B : Type} (f : A -> result B) (l : list A) : result (list B) :=
  match l with
  | [] => Ok []
  | x :: l' => y <-- f x ;; ys <-- mapR f l' ;; Ok (y :: ys)
  end.

(** How a run of a script ends: [exit(0)] after the lines printed so far,
    an uncaught exception, or the end of the script with its aggregates.
    Printed lines are recorded for the [exit] path only; the report that
    the other paths print is formatting and is left out. *)
Inductive outcome (A : Type) : Type :=
  | Exited (printed : list string) (status : Z)
  | Raised (e : py_exn)
  | Finished (a : A).

Arguments Exited {A} printed status.
Arguments Raised {A} e.
Arguments Finished {A} a.

Definition run_result {A : Type} (r : result A) : outcome A :=
  match r with
  | Ok a => Finished a
  | Raise e => Raised e
  end.

(** ["=" * 60] *)
Fixpoint str_repeat (s : string) (n : nat) : string :=
  match n with
  | O => EmptyString
  | S n' => (s ++ str_repeat s n')%string
  end.

Definition newline : string := String (ascii_of_nat 10) EmptyString.

(** ** Numbers *)

Definition Qz (n : Z) : Q := inject_Z n.

Definition Qsum (l : list Q) : Q := foldr Qplus 0%Q l.

(** ** The part of pandas the two scripts use *)

(** A parsed date.  [pd.to_datetime] is library code: its input is taken
    as already split into calendar fields, and the strings it rejects are
    the field values outside the calendar.  The range of years a
    nanosecond Timestamp can hold (1677 to 2262) is not modelled. *)
Record ymd : Type := Ymd { year : Z; month : Z; day : Z }.

Definition is_leap (y : Z) : bool :=
  ((y mod 4 =? 0) && negb (y mod 100 =? 0)) || (y mod 400 =? 0).

Definition days_in_month (y m : Z) : Z :=
  if m =? 2 then (if is_leap y then 29 else 28)
  else if (m =? 4) || (m =? 6) || (m =? 9) || (m =? 11) then 30
  else 31.

Definition parseable (d : ymd) : bool :=
  (1 <=? month d) && (month d <=? 12) &&
  (1 <=? day d) && (day d <=? days_in_month (year d) (month d)).

(** [pd.to_datetime(column)]: a malformed date aborts the run. *)
Definition to_datetime (col : list ymd) : result (list ymd) :=
  mapR (fun d => if parseable d then Ok d else Raise ValueError) col.

(** Timestamp comparison. *)
Definition date_leb (a b : ymd) : bool :=
  (year a <? year b) ||
  ((year a =? year b) &&
   ((month a <? month b) || ((month a =? month b) && (day a <=? day b)))).

Definition date_min (a b : ymd) : ymd := if date_leb a b then a else b.

(** [.dt.to_period('M')]: the ordinal of the calendar month (months since
    1970-01); the difference of two such periods has this difference of
    ordinals as its [.n]. *)
Definition to_period_M (d : ymd) : Z := 12 * (year d - 1970) + (month d - 1).

(** [Series.unique()]: the distinct values in order of first appearance. *)
Fixpoint unique {A : Type} `{EqDecision A} (l : list A) : list A :=
  match l with
  | [] => []
  | x :: l' => x :: filter (fun y => y <> x) (unique l')
  end.

(** [Series.nunique()]: the number of distinct values. *)
Definition nunique {A : Type} `{EqDecision A} (l : list A) : Z :=
  Z.of_nat (length (remove_dups l)).

(** The sorted distinct values of a label column, as [groupby] and [pivot]
    order their keys. *)
Definition sort_labels (l : list Z) : list Z := merge_sort Z.le (remove_dups l).

(** A series: labels with values, NaN as [None]. *)
Abbreviation series L := (list (L * option Q)) (only parsing).

Definition dropna (l : list (option Q)) : list Q := omap id l.

(** [mean(skipna=True)]: NaN when nothing is left to average. *)
Definition mean (l : list (option Q)) : option Q :=
  match dropna l with
  | [] => None
  | vs => Some (Qsum vs / Qz (Z.of_nat (length vs)))%Q
  end.

(** [idxmin] / [idxmax]: label of the first extreme value, NaN skipped.
    [better v b] says that [v] replaces the running best [b]. *)
Fixpoint arg_scan {L : Type} (better : Q -> Q -> bool) (best : option (L * Q))
    (s : series L) : option L :=
  match s with
  | [] => fst <$> best
  | (_, None) :: s' => arg_scan better best s'
  | (i, Some v) :: s' =>
      match best with
      | None => arg_scan better (Some (i, v)) s'
      | Some (_, b) =>
          if better v b then arg_scan better (Some (i, v)) s'
          else arg_scan better best s'
      end
  end.

Definition Qltb (a b : Q) : bool := negb (Qle_bool b a).

(** An empty series raises; a series of NaN only gives NaN ([None]), the
    case the funnel script guards with [pd.isna].  This is pandas 2; later
    versions raise [ValueError] for a series of NaN only as well. *)
Definition idxmin {L : Type} (s : series L) : result (option L) :=
  match s with
  | [] => Raise ValueError
  | _ => Ok (arg_scan (fun v b => Qltb v b) None s)
  end.

Definition idxmax {L : Type} (s : series L) : result (option L) :=
  match s with
  | [] => Raise ValueError
  | _ => Ok (arg_scan (fun v b => Qltb b v) None s)
  end.

(** ** The sales funnel script *)

Module Funnel.

(** One record of the injected data. *)
Record event : Type := Event { user_id : Z; stage : string; date : ymd }.

(** What stands in the script where the template has [{{stages}}]: the
    placeholder itself, nothing, or a double-quoted Python string literal
    with value [s] ([s] free of quotes and backslashes). *)
Inductive stages_placeholder : Type :=
  | StagesAbsent
  | StagesEmpty
  | StagesLiteral (s : string).

Definition dquote : string := String (ascii_of_nat 34) EmptyString.

Definition placeholder_text (c : stages_placeholder) : string :=
  match c with
  | StagesAbsent => "{{stages}}"
  | StagesEmpty => EmptyString
  | StagesLiteral s => (dquote ++ s ++ dquote)%string
  end.

(** Line 30 begins [funnel_stages = {{stages}}.split(',') if ...]: with
    nothing in place of the placeholder the statement starts with
    [.split] and the file is not a Python program. *)
Definition script_parses (c : stages_placeholder) : bool :=
  match c with
  | StagesEmpty => false
  | _ => true
  end.

(** The unquoted occurrence as an expression: [{{stages}}] is a set
    display over the name [stages], which is first bound on line 83. *)
Definition eval_placeholder (c : stages_placeholder) : result string :=
  match c with
  | StagesAbsent => Raise NameError
  | StagesEmpty => Raise SyntaxError
  | StagesLiteral s => Ok s
  end.

(** [str.split(',')] *)
Fixpoint split_comma (s : string) : list string :=
  match s with
  | EmptyString => [EmptyString]
  | String c s' =>
      if Ascii.eqb c "," then EmptyString :: split_comma s'
      else match split_comma s' with
           | h :: t => String c h :: t
           | [] => [String c EmptyString]
           end
  end.

(** Line 30:
    [{{stages}}.split(',') if '{{stages}}' != '' else df['stage'].unique().tolist()] *)
Definition funnel_stages (c : stages_placeholder) (df : list event)
    : result (list string) :=
  if script_parses c then
    if bool_decide (placeholder_text c <> EmptyString)
    then s <-- eval_placeholder c ;; Ok (split_comma s)
    else Ok (unique (map stage df))
  else Raise SyntaxError.

(** One entry of [funnel_metrics]. *)
Record metric : Type := Metric {
  stage_name : string;
  users : Z;
  overall_conversion : Q;
  stage_conversion : Q
}.

(** [df[df['stage'] == stage]['user_id'].nunique()] *)
Definition stage_users (df : list event) (st : string) : Z :=
  nunique (map user_id (filter (fun e => stage e = st) df)).

(** The body of the loop of lines 40-56, at index [i] and stage [st]. *)
Definition metrics_step (df : list event) (total_leads : Z)
    (funnel_metrics : list metric) (i : nat) (st : string)
    : result (list metric) :=
  let su := stage_users df st in
  let conversion_rate :=
    if 0 <? total_leads then (Qz su / Qz total_leads * 100)%Q else 0%Q in
  sc <-- (if (0 <? i)%nat then
            m <-- lift IndexError (funnel_metrics !! (i - 1)%nat) ;;
            let prev_stage_users := users m in
            Ok (if 0 <? prev_stage_users
                then (Qz su / Qz prev_stage_users * 100)%Q else 0%Q)
          else Ok 100%Q) ;;
  Ok (funnel_metrics ++
      [ {| stage_name := st; users := su;
           overall_conversion := conversion_rate; stage_conversion := sc |} ])%list.

Fixpoint metrics_loop (df : list event) (total_leads : Z)
    (funnel_metrics : list metric) (i : nat) (stages : list string)
    : result (list metric) :=
  match stages with
  | [] => Ok funnel_metrics
  | st :: rest =>
      fm <-- metrics_step df total_leads funnel_metrics i st ;;
      metrics_loop df total_leads fm (S i) rest
  end.

Definition funnel_metrics (df : list event) (stages : list string)
    : result (list metric) :=
  metrics_loop df (nunique (map user_id df)) [] 0%nat stages.

(** One line pair of the drop-off analysis (lines 70-77). *)
Record dropoff_line : Type := Dropoff {
  from_stage : string;
  to_stage : string;
  dropoff : Z;
  dropoff_rate : Q
}.

Definition dropoff_at (funnel_df : list metric) (i : nat) : result dropoff_line :=
  cur <-- lift IndexError (funnel_df !! i) ;;
  nxt <-- lift IndexError (funnel_df !! (i + 1)%nat) ;;
  let current_users := users cur in
  let next_users := users nxt in
  let d := current_users - next_users in
  Ok {| from_stage := stage_name cur; to_stage := stage_name nxt;
        dropoff := d;
        dropoff_rate := if 0 <? current_users
                        then (Qz d / Qz current_users * 100)%Q else 0%Q |}.

(** [for i in range(len(funnel_df) - 1)] *)
Definition dropoff_analysis (funnel_df : list metric) : result (list dropoff_line) :=
  mapR (dropoff_at funnel_df) (seq 0 (length funnel_df - 1)).

(** [funnel_df['stage_conversion']], labelled by the RangeIndex. *)
Definition stage_conversions (funnel_df : list metric) : series nat :=
  imap (fun i m => (i, Some (stage_conversion m))) funnel_df.

(** [funnel_df.iloc[idx]] of the two insight lines, under [pd.isna]. *)
Definition insight (funnel_df : list metric) (idx : option nat)
    : result (option (string * Q)) :=
  match idx with
  | None => Ok None
  | Some k =>
      m <-- lift IndexError (funnel_df !! k) ;;
      Ok (Some (stage_name m, stage_conversion m))
  end.

Record report : Type := Report {
  stages_used : list string;
  funnel_df : list metric;
  dropoffs : list dropoff_line;
  biggest_dropoff_idx : option nat;
  biggest_dropoff : option (string * Q);
  best_stage_idx : option nat;
  best_conversion : option (string * Q)
}.

(** Lines 24-141 on the parsed records. *)
Definition aggregate (c : stages_placeholder) (records : list event)
    : result report :=
  _ <-- (match records with [] => Raise KeyError | _ => Ok tt end) ;;
  _ <-- to_datetime (map date records) ;;
  stages <-- funnel_stages c records ;;
  fdf <-- funnel_metrics records stages ;;
  drops <-- dropoff_analysis fdf ;;
  _ <-- (match fdf with [] => Raise KeyError | _ => Ok tt end) ;;
  bi <-- idxmin (drop 1 (stage_conversions fdf)) ;;
  big <-- insight fdf bi ;;
  be <-- idxmax (drop 1 (stage_conversions fdf)) ;;
  best <-- insight fdf be ;;
  Ok {| stages_used := stages; funnel_df := fdf; dropoffs := drops;
        biggest_dropoff_idx := bi; biggest_dropoff := big;
        best_stage_idx := be; best_conversion := best |}.

Definition banner : list string :=
  [ str_repeat "=" 60;
    "SALES FUNNEL ANALYSIS - Conversion Optimization";
    str_repeat "=" 60 ].

Definition format_hint : list string :=
  [ "Note: This is a template. Data will be injected when executed.";
    (newline ++ "Expected data format:")%string;
    "  - user_id: Lead/Customer identifier";
    "  - stage: Funnel stage name";
    "  - date: Timestamp of stage entry" ].

Section Script.

(** [json.loads] followed by [pd.DataFrame]: library code, [None] when
    the text is not a JSON array of records. *)
Variable json_loads : string -> option (list event).

(** A run of the script with [data_json] as the text between the triple
    quotes of line 13. *)
Definition main (c : stages_placeholder) (data_json : string) : outcome report :=
  if script_parses c then
    if bool_decide (data_json = "{{data}}")
    then Exited (banner ++ format_hint)%list 0
    else match json_loads data_json with
         | None => Raised ValueError
         | Some records => run_result (aggregate c records)
         end
  else Raised SyntaxError.

End Script.

End Funnel.

(** ** The cohort analysis script *)

Module Cohort.

(** One record of the injected data; the optional [event] label is never
    read by the script and is left out. *)
Record event : Type := Event { user_id : Z; date : ymd }.

(** [df.groupby('user_id')['date'].transform('min')] at the row [e]: the
    earliest date among the rows of the same user. *)
Definition user_dates (df : list event) (u : Z) : list ymd :=
  map date (filter (fun e' => user_id e' = u) df).

Definition first_date (df : list event) (e : event) : ymd :=
  foldr date_min (date e) (user_dates df (user_id e)).

(** The columns added on lines 39-43. *)
Record row : Type := Row {
  r_user_id : Z;
  cohort_month : Z;
  activity_month : Z;
  period_number : Z
}.

Definition row_of (df : list event) (e : event) : row :=
  let cm := to_period_M (first_date df e) in
  let am := to_period_M (date e) in
  {| r_user_id := user_id e; cohort_month := cm;
     activity_month := am; period_number := am - cm |}.

Definition with_periods (df : list event) : list row := map (row_of df) df.

(** The key of [groupby(['cohort_month', 'period_number'])] and the order
    in which the groups come out. *)
Definition key (r : row) : Z * Z := (cohort_month r, period_number r).

Definition key_le (a b : Z * Z) : Prop :=
  a.1 < b.1 \/ (a.1 = b.1 /\ a.2 <= b.2).

#[export] Instance key_le_dec : RelDecision key_le.
Proof. intros a b. unfold key_le. apply _. Defined.

(** [['user_id'].nunique()] of the group [(c, p)]. *)
Definition cell_count (rows : list row) (c p : Z) : Z :=
  nunique (map r_user_id (filter (fun r => key r = (c, p)) rows)).

(** Line 46: one record [(cohort_month, period_number, user_id)] per
    observed group, after [reset_index]. *)
Definition cohort_data (rows : list row) : list (Z * Z * Z) :=
  map (fun k => (k.1, k.2, cell_count rows k.1 k.2))
      (merge_sort key_le (remove_dups (map key rows))).

(** A DataFrame with labelled rows and columns of float cells. *)
Record frame : Type := Frame {
  index : list Z;
  columns : list Z;
  values : list (list (option Q))
}.

Definition cd_value (cd : list (Z * Z * Z)) (c p : Z) : option Q :=
  (fun r => Qz r.2) <$> find (fun r => bool_decide (r.1 = (c, p))) cd.

(** Line 47: [pivot(index='cohort_month', columns='period_number',
    values='user_id')]; a pair without a record is NaN. *)
Definition pivot (cd : list (Z * Z * Z)) : frame :=
  let idx := sort_labels (map (fun r => r.1.1) cd) in
  let cols := sort_labels (map (fun r => r.1.2) cd) in
  {| index := idx; columns := cols;
     values := map (fun c => map (fun p => cd_value cd c p) cols) idx |}.

(** [fr.iloc[:, j]] *)
Definition iloc_column (fr : frame) (j : nat) : result (list (option Q)) :=
  if (j <? length (columns fr))%nat
  then mapR (fun r => lift IndexError (r !! j)) (values fr)
  else Raise IndexError.

(** Float division with NaN propagation.  A zero divisor would give an
    infinity or NaN in numpy; it is mapped to [None] here and shown not to
    occur ([cohort_size_positive]). *)
Definition fdiv (x y : option Q) : option Q :=
  match x, y with
  | Some a, Some b => if Qeq_bool b 0 then None else Some (a / b)%Q
  | _, _ => None
  end.

(** [fr.divide(s, axis=0)]: every row by the entry of [s] for its label;
    [s] carries the index of [fr]. *)
Definition divide (fr : frame) (s : list (option Q)) : frame :=
  {| index := index fr; columns := columns fr;
     values := zip_with (fun r d => map (fun x => fdiv x d) r) (values fr) s |}.

(** [fr * k] *)
Definition times (fr : frame) (k : Q) : frame :=
  {| index := index fr; columns := columns fr;
     values := map (map (fmap (fun v => (v * k)%Q))) (values fr) |}.

(** [fr.iloc[:, a:b]] *)
Definition iloc_columns (fr : frame) (a b : nat) : frame :=
  {| index := index fr;
     columns := take (b - a) (drop a (columns fr));
     values := map (fun r => take (b - a) (drop a r)) (values fr) |}.

(** [fr.mean(axis=0)]: one mean per column, over the rows. *)
Definition mean_axis0 (fr : frame) : series Z :=
  imap (fun j p => (p, mean (map (fun r => from_option id None (r !! j)) (values fr))))
       (columns fr).

(** [fr.mean(axis=1)]: one mean per row, over the columns. *)
Definition mean_axis1 (fr : frame) : series Z :=
  zip_with (fun c r => (c, mean r)) (index fr) (values fr).

Record report : Type := Report {
  cohort_pivot : frame;
  cohort_sizes : list (option Q);
  retention : frame;
  avg_retention : series Z;
  best_cohort : option Z;
  worst_cohort : option Z
}.

(** Lines 33-126 on the parsed records.  [to_datetime] leaves the calendar
    fields of a well-formed date as they are, so the rows are read from
    [records] once it has succeeded. *)
Definition aggregate (records : list event) : result report :=
  _ <-- (match records with [] => Raise KeyError | _ => Ok tt end) ;;
  _ <-- to_datetime (map date records) ;;
  let df := with_periods records in
  let cp := pivot (cohort_data df) in
  sizes <-- iloc_column cp 0 ;;
  let ret := times (divide cp sizes) 100 in
  let avg := mean_axis0 ret in
  best <-- idxmax (mean_axis1 (iloc_columns ret 1 6)) ;;
  worst <-- idxmin (mean_axis1 (iloc_columns ret 1 6)) ;;
  Ok {| cohort_pivot := cp; cohort_sizes := sizes; retention := ret;
        avg_retention := avg; best_cohort := best; worst_cohort := worst |}.

Definition banner : list string :=
  [ str_repeat "=" 60;
    "COHORT ANALYSIS - User Retention & Lifecycle";
    str_repeat "=" 60 ].

Definition format_hint : list string :=
  [ "Note: This is a template. Data will be injected when executed.";
    (newline ++ "Expected data format:")%string;
    "  - user_id: User identifier";
    "  - date: Event date (YYYY-MM-DD format)";
    "  - event: Event type (optional)" ].

Section Script.

(** [json.loads] followed by [pd.DataFrame]: library code, [None] when
    the text is not a JSON array of records. *)
Variable json_loads : string -> option (list event).

(** A run of the script with [data_json] as the text between the triple
    quotes of line 22. *)
Definition main (data_json : string) : outcome report :=
  if bool_decide (data_json = "{{data}}")
  then Exited (banner ++ format_hint)%list 0
  else match json_loads data_json with
       | None => Raised ValueError
       | Some records => run_result (aggregate records)
       end.

End Script.

(** *** Quantities the specification names *)

(** Label-based access to a cell: [None] when a label is absent,
    [Some None] for NaN. *)
Fixpoint index_of (x : Z) (l : list Z) : option nat :=
  match l with
  | [] => None
  | y :: l' => if decide (x = y) then Some 0%nat else S <$> index_of x l'
  end.

Definition loc (fr : frame) (c p : Z) : option (option Q) :=
  i ← index_of c (index fr) ;
  j ← index_of p (columns fr) ;
  r ← values fr !! i ;
  r !! j.

(** Distinct users of cohort [c] active [p] months after their first month. *)
Definition count (records : list event) (c p : Z) : Z :=
  cell_count (with_periods records) c p.

(** [count(c, p) / count(c, 0) * 100], missing where the cohort has no
    event in that period. *)
Definition retention_rate (records : list event) (c p : Z) : option Q :=
  if 0 <? count records c p
  then Some (Qz (count records c p) / Qz (count records c 0) * 100)%Q
  else None.

(** The cohort months present in the data. *)
Definition cohorts (records : list event) : list Z :=
  sort_labels (map cohort_month (with_periods records)).

(** Mean retention of cohort [c] over elapsed periods 1 to 5, missing
    cells ignored. *)
Definition mean_periods_1_5 (records : list event) (c : Z) : option Q :=
  mean (map (retention_rate records c) [1; 2; 3; 4; 5]).

End Cohort.

(** ** Reference forms used by the proofs *)

(** The funnel metrics as a recursion over the stages that carries the
    previous stage's user count ([None] before the first stage). *)
Definition metric_for (df : list Funnel.event) (total_leads : Z)
    (prev : option Z) (st : string) : Funnel.metric :=
  let su := Funnel.stage_users df st in
  {| Funnel.stage_name := st;
     Funnel.users := su;
     Funnel.overall_conversion :=
       if 0 <? total_leads then (Qz su / Qz total_leads * 100)%Q else 0%Q;
     Funnel.stage_conversion :=
       match prev with
       | None => 100%Q
       | Some p => if 0 <? p then (Qz su / Qz p * 100)%Q else 0%Q
       end |}.

Fixpoint metrics_from (df : list Funnel.event) (total_leads : Z)
    (prev : option Z) (stages : list string) : list Funnel.metric :=
  match stages with
  | [] => []
  | st :: rest =>
      metric_for df total_leads prev st
      :: metrics_from df total_leads (Some (Funnel.stage_users df st)) rest
  end.

(** What the running best of [arg_scan] knows about the entries read so
    far: it is the first of them that no other one beats. *)
Definition scan_inv {L : Type} (better : Q -> Q -> bool)
    (s : series L) (best : option (L * Q)) : Prop :=
  match best with
  | None => forall m j x, s !! m = Some (j, x) -> x = None
  | Some (i, v) =>
      exists n, s !! n = Some (i, Some v) /\
        (forall m j w, s !! m = Some (j, Some w) -> better w v = false) /\
        (forall m j w, (m < n)%nat -> s !! m = Some (j, Some w) -> better v w = true)
  end.

(** A frame whose cell at labels [(c, p)] is [f c p]. *)
Definition tabulate (idx cols : list Z) (f : Z -> Z -> option Q) : Cohort.frame :=
  {| Cohort.index := idx; Cohort.columns := cols;
     Cohort.values := map (fun c => map (f c) cols) idx |}.

(** The elapsed periods present in the data. *)
Definition periods (records : list Cohort.event) : list Z :=
  sort_labels (map Cohort.period_number (Cohort.with_periods records)).

(** The cell of the cohort table at [(c, p)]: the distinct-user count, or
    NaN for a pair without events. *)
Definition count_cell (records : list Cohort.event) (c p : Z) : option Q :=
  if 0 <? Cohort.count records c p
  then Some (Qz (Cohort.count records c p)) else None.

(** The cohort table has a cell in one of the elapsed periods 1 to 5. *)
Definition has_cell_in_periods_1_5 (records : list Cohort.event) : Prop :=
  exists c p, 1 <= p <= 5 /\ 0 < Cohort.count records c p.

(** [b] is a cohort month whose mean retention over elapsed periods 1 to
    5 is highest (lowest) among the cohorts that have such a mean. *)
Definition highest_over_periods_1_5 (records : list Cohort.event)
    (b : option Z) : Prop :=
  exists c m,
    b = Some c /\ c ∈ Cohort.cohorts records /\
    Cohort.mean_periods_1_5 records c = Some m /\
    forall c' m', c' ∈ Cohort.cohorts records ->
                  Cohort.mean_periods_1_5 records c' = Some m' -> (m' <= m)%Q.

Definition lowest_over_periods_1_5 (records : list Cohort.event)
    (b : option Z) : Prop :=
  exists c m,
    b = Some c /\ c ∈ Cohort.cohorts records /\
    Cohort.mean_periods_1_5 records c = Some m /\
    forall c' m', c' ∈ Cohort.cohorts records ->
                  Cohort.mean_periods_1_5 records c' = Some m' -> (m <= m')%Q.

(** The scenarios of the specification, used to exercise the theorems. *)
Definition funnel_scenario : list Funnel.event :=
  let d := Ymd 2024 1 15 in
  [ Funnel.Event 1 "lead" d; Funnel.Event 2 "lead" d; Funnel.Event 3 "lead" d;
    Funnel.Event 1 "qualified" d; Funnel.Event 2 "qualified" d;
    Funnel.Event 1 "closed" d ].

Definition funnel_scenario_stages : list string :=
  [ "lead"; "qualified"; "closed" ].

Definition cohort_scenario : list Cohort.event :=
  [ Cohort.Event 1 (Ymd 2024 1 10); Cohort.Event 1 (Ymd 2024 2 5);
    Cohort.Event 2 (Ymd 2024 1 20); Cohort.Event 2 (Ymd 2024 3 1) ].

(** Two cohorts whose observed elapsed periods are 0, 1 and 7: users 1
    and 2 start in 2024-01, one of them returns in 2024-02 and both in
    2024-08; users 3 to 7 start in 2024-02 and three of them return in
    2024-03. *)
Definition gap_scenario : list Cohort.event :=
  [ Cohort.Event 1 (Ymd 2024 1 10); Cohort.Event 2 (Ymd 2024 1 20);
    Cohort.Event 1 (Ymd 2024 2 5);
    Cohort.Event 1 (Ymd 2024 8 1); Cohort.Event 2 (Ymd 2024 8 1);
    Cohort.Event 3 (Ymd 2024 2 1); Cohort.Event 4 (Ymd 2024 2 1);
    Cohort.Event 5 (Ymd 2024 2 1); Cohort.Event 6 (Ymd 2024 2 1);
    Cohort.Event 7 (Ymd 2024 2 1);
    Cohort.Event 3 (Ymd 2024 3 1); Cohort.Event 4 (Ymd 2024 3 1);
    Cohort.Event 5 (Ymd 2024 3 1) ].

(** ** Further lines of the scripts *)

(** Line 59 of the cohort script: [df['user_id'].nunique()]. *)
Definition total_users (records : list Cohort.event) : Z :=
  nunique (map Cohort.user_id records).

(** [avg_retention.get(k, 0)] (lines 112-114): the value at label [k],
    NaN included, or the default when the label is absent. *)
Definition series_get (s : series Z) (k : Z) (default : Q) : option Q :=
  match find (fun e : Z * option Q => bool_decide (e.1 = k)) s with
  | Some (_, x) => x
  | None => Some default
  end.

Definition first_month_retention (rep : Cohort.report) : option Q :=
  series_get (Cohort.avg_retention rep) 1 0.

(** Lines 120-122: the drop-off line is printed under
    [first_month_retention > 0]; [None] when it is not printed. *)
Definition retention_drop (rep : Cohort.report) : option Q :=
  match first_month_retention rep with
  | Some v => if Qltb 0 v then Some (100 - v)%Q else None
  | None => None
  end.

(** Line 128 of the funnel script:
    [(iloc[-1]['users'] / iloc[0]['users'] * 100) if iloc[0]['users'] > 0 else 0]. *)
Definition total_conversion (funnel_df : list Funnel.metric) : result Q :=
  first <-- lift IndexError (head funnel_df) ;;
  if 0 <? Funnel.users first
  then lst <-- lift IndexError (last funnel_df) ;;
       Ok (Qz (Funnel.users lst) / Qz (Funnel.users first) * 100)%Q
  else Ok 0%Q.

(** The inverse of [str.split(',')]: [','.join(pieces)]. *)
Fixpoint join_comma (pieces : list string) : string :=
  match pieces with
  | [] => EmptyString
  | [p] => p
  | p :: rest => (p ++ "," ++ join_comma rest)%string
  end.

Fixpoint count_commas (s : string) : nat :=
  match s with
  | EmptyString => 0%nat
  | String c s' => ((if Ascii.eqb c "," then 1 else 0) + count_commas s')%nat
  end.

Fixpoint has_comma (s : string) : bool :=
  match s with
  | EmptyString => false
  | String c s' => Ascii.eqb c "," || has_comma s'
  end.

(** The product of the stage conversions after the first stage, each as a
    fraction. *)
Fixpoint conversion_product (ms : list Funnel.metric) : Q :=
  match ms with
  | [] => 1%Q
  | m :: rest => (Funnel.stage_conversion m / 100 * conversion_product rest)%Q
  end.

(** The distinct (user, cohort month) pairs of the data. *)
Definition user_cohorts (records : list Cohort.event) : list (Z * Z) :=
  remove_dups (map (fun r => (Cohort.r_user_id r, Cohort.cohort_month r))
                   (Cohort.with_periods records)).

(** Two cohorts with contiguous elapsed periods 0 and 1: users 1 and 2
    start in 2024-01 and one of them returns in 2024-02; users 3 and 4
    start in 2024-02 and both return in 2024-03. *)
Definition two_cohort_scenario : list Cohort.event :=
  [ Cohort.Event 1 (Ymd 2024 1 10); Cohort.Event 2 (Ymd 2024 1 20);
    Cohort.Event 1 (Ymd 2024 2 5);
    Cohort.Event 3 (Ymd 2024 2 1); Cohort.Event 4 (Ymd 2024 2 2);
    Cohort.Event 3 (Ymd 2024 3 1); Cohort.Event 4 (Ymd 2024 3 3) ].

(** * Properties *)

(** ** Results and rationals *)

Lemma mapR_seq_ok {B : Type} (f : nat -> result B) (g : nat -> B) (n a : nat) :
  (forall i, (a <= i < a + n)%nat -> f i = Ok (g i)) ->
  mapR f (seq a n) = Ok (map g (seq a n)).
Proof.
  revert a. induction n as [|n IH]; intros a Hf; simpl; [done|].
  rewrite Hf by lia. simpl.
  rewrite (IH (S a)) by (intros i Hi; apply Hf; lia). done.
Qed.

Lemma Qltb_lt (a b : Q) : Qltb a b = true <-> (a < b)%Q.
Proof.
  unfold Qltb. rewrite negb_true_iff. split.
  - intros H. apply Qnot_le_lt. intros Hle.
    apply Qle_bool_iff in Hle. congruence.
  - intros H. destruct (Qle_bool b a) eqn:E; [|done].
    apply Qle_bool_iff in E. exfalso. by apply (Qlt_not_le a b).
Qed.

Lemma Qltb_ge (a b : Q) : Qltb a b = false <-> (b <= a)%Q.
Proof.
  unfold Qltb. rewrite negb_false_iff. apply Qle_bool_iff.
Qed.

(** ** The funnel metrics loop *)

Section FunnelLoop.

Variable df : list Funnel.event.
Variable total_leads : Z.

Lemma metrics_loop_unfold (stages : list string) :
  forall acc,
    Funnel.metrics_loop df total_leads acc (length acc) stages
    = Ok (acc ++ metrics_from df total_leads (Funnel.users <$> last acc) stages)%list.
Proof.
  induction stages as [|st rest IH]; intros acc; simpl.
  - by rewrite app_nil_r.
  - unfold Funnel.metrics_step.
    destruct acc as [|m0 acc'] eqn:Hacc using rev_ind.
    + simpl. exact (IH [metric_for df total_leads None st]).
    + clear IHacc'. rewrite length_app. simpl.
      replace (0 <? length acc' + 1)%nat with true
        by (symmetry; apply Nat.ltb_lt; lia).
      replace (length acc' + 1 - 1)%nat with (length acc') by lia.
      rewrite list_lookup_middle by done. simpl.
      rewrite last_snoc. simpl.
      specialize (IH ((acc' ++ [m0]) ++
        [metric_for df total_leads (Some (Funnel.users m0)) st])%list).
      rewrite !length_app in IH. simpl in IH.
      replace (S (length acc' + 1)) with (length acc' + 1 + 1)%nat by lia.
      unfold metric_for in IH at 1. simpl in IH. rewrite IH.
      rewrite last_snoc. simpl. by rewrite <- app_assoc.
Qed.

Lemma metrics_from_length (stages : list string) prev :
  length (metrics_from df total_leads prev stages) = length stages.
Proof. revert prev. induction stages; intros; simpl; [done|]. by rewrite IHstages. Qed.

Lemma metrics_from_lookup (stages : list string) :
  forall prev i st,
    stages !! i = Some st ->
    exists m, metrics_from df total_leads prev stages !! i = Some m /\
              Funnel.stage_name m = st /\
              Funnel.users m = Funnel.stage_users df st.
Proof.
  induction stages as [|s rest IH]; intros prev i st H; [done|].
  destruct i as [|i]; simpl in *.
  - simplify_eq. eexists; split; [done|]. done.
  - by apply IH.
Qed.

Lemma metrics_from_head (stages : list string) prev m :
  metrics_from df total_leads prev stages !! 0%nat = Some m ->
  Funnel.stage_conversion m =
    match prev with
    | None => 100%Q
    | Some p => if 0 <? p then (Qz (Funnel.users m) / Qz p * 100)%Q else 0%Q
    end.
Proof. destruct stages; simpl; intros; simplify_eq; done. Qed.

Lemma metrics_from_succ (stages : list string) :
  forall prev i m_prev m,
    metrics_from df total_leads prev stages !! i = Some m_prev ->
    metrics_from df total_leads prev stages !! S i = Some m ->
    Funnel.stage_conversion m =
      if 0 <? Funnel.users m_prev
      then (Qz (Funnel.users m) / Qz (Funnel.users m_prev) * 100)%Q else 0%Q.
Proof.
  induction stages as [|s rest IH]; intros prev i m_prev m H1 H2; [done|].
  destruct i as [|i]; simpl in *.
  - simplify_eq. simpl. by rewrite (metrics_from_head _ _ _ H2).
  - by eapply IH.
Qed.

End FunnelLoop.

Lemma funnel_metrics_unfold (df : list Funnel.event) (stages : list string) :
  Funnel.funnel_metrics df stages
  = Ok (metrics_from df (nunique (map Funnel.user_id df)) None stages).
Proof. unfold Funnel.funnel_metrics. by rewrite (metrics_loop_unfold _ _ _ []). Qed.

(** ** [idxmin] and [idxmax] *)

Section ArgScan.

Context {L : Type}.
Variable better : Q -> Q -> bool.
Hypothesis better_irrefl : forall a, better a a = false.
Hypothesis better_trans :
  forall a b c, better a b = true -> better b c = true -> better a c = true.
Hypothesis better_cotrans :
  forall a b x, better a b = true -> better a x = true \/ better x b = true.

Lemma scan_inv_step (pre : series L) best i x :
  scan_inv better pre best ->
  scan_inv better (pre ++ [(i, x)])
    match x, best with
    | None, _ => best
    | Some v, None => Some (i, v)
    | Some v, Some (_, b) => if better v b then Some (i, v) else best
    end.
Proof.
  intros Hinv.
  assert (Hsnoc : forall m j y, (pre ++ [(i, x)]) !! m = Some (j, y) ->
            pre !! m = Some (j, y) \/ (m = length pre /\ j = i /\ y = x)).
  { intros m j y Hm. apply lookup_snoc_Some in Hm as [[_ Hm]|[-> Hm]]; [by left|].
    right. by simplify_eq. }
  assert (Hnew : (pre ++ [(i, x)]) !! length pre = Some (i, x)).
  { by rewrite list_lookup_middle. }
  destruct x as [v|].
  - destruct best as [[ib b]|].
    + destruct Hinv as (n & Hn & Hall & Hfirst).
      pose proof (lookup_lt_Some _ _ _ Hn) as Hlt.
      destruct (better v b) eqn:Hvb.
      * exists (length pre). split; [done|]. split.
        -- intros m j w Hm. apply Hsnoc in Hm as [Hm|(_ & _ & Hm)].
           ++ destruct (better w v) eqn:Hwv; [|done].
              rewrite <- (Hall _ _ _ Hm). symmetry. by eapply better_trans.
           ++ simplify_eq. apply better_irrefl.
        -- intros m j w Hmn Hm. apply Hsnoc in Hm as [Hm|(-> & _)]; [|lia].
           destruct (better_cotrans _ _ w Hvb) as [H|H]; [done|].
           rewrite (Hall _ _ _ Hm) in H. done.
      * exists n. split; [by apply lookup_app_l_Some|]. split.
        -- intros m j w Hm. apply Hsnoc in Hm as [Hm|(_ & _ & Hm)].
           ++ by eapply Hall.
           ++ by simplify_eq.
        -- intros m j w Hmn Hm. apply Hsnoc in Hm as [Hm|(-> & _)]; [|lia].
           by eapply Hfirst.
    + exists (length pre). split; [done|]. split.
      * intros m j w Hm. apply Hsnoc in Hm as [Hm|(_ & _ & Hm)].
        -- by apply Hinv in Hm.
        -- simplify_eq. apply better_irrefl.
      * intros m j w Hmn Hm. apply Hsnoc in Hm as [Hm|(-> & _)]; [|lia].
        by apply Hinv in Hm.
  - destruct best as [[ib b]|].
    + destruct Hinv as (n & Hn & Hall & Hfirst).
      exists n. split; [by apply lookup_app_l_Some|]. split.
      * intros m j w Hm. apply Hsnoc in Hm as [Hm|(_ & _ & Hm)]; [|done].
        by eapply Hall.
      * intros m j w Hmn Hm. apply Hsnoc in Hm as [Hm|(_ & _ & Hm)]; [|done].
        by eapply Hfirst.
    + intros m j y Hm. apply Hsnoc in Hm as [Hm|(_ & _ & Hm)]; [|done].
      by eapply Hinv.
Qed.

Lemma arg_scan_inv (s : series L) :
  forall pre best,
    scan_inv better pre best ->
    exists best', arg_scan better best s = fst <$> best' /\
                  scan_inv better (pre ++ s) best'.
Proof.
  induction s as [|[i x] s IH]; intros pre best Hinv.
  - exists best. by rewrite app_nil_r.
  - apply (scan_inv_step _ _ i x) in Hinv.
    apply IH in Hinv as (best' & Hscan & Hinv').
    exists best'. rewrite <- app_assoc in Hinv'. split; [|done].
    rewrite <- Hscan. simpl.
    destruct x as [v|]; [|done]. destruct best as [[ib b]|]; [|done].
    by destruct (better v b).
Qed.

(** With a value present, the scan returns the label of the first entry
    that no other entry beats. *)
Lemma arg_scan_first (s : series L) k j0 w0 :
  s !! k = Some (j0, Some w0) ->
  exists n i v,
    arg_scan better None s = Some i /\
    s !! n = Some (i, Some v) /\
    (forall m j w, s !! m = Some (j, Some w) -> better w v = false) /\
    (forall m j w, (m < n)%nat -> s !! m = Some (j, Some w) -> better v w = true).
Proof.
  intros Hk.
  destruct (arg_scan_inv s [] None) as (best' & Hscan & Hinv).
  { intros m j x Hm. done. }
  simpl in Hinv. destruct best' as [[i v]|].
  - destruct Hinv as (n & Hn & Hall & Hfirst).
    exists n, i, v. by rewrite Hscan.
  - apply Hinv in Hk. done.
Qed.

End ArgScan.

Lemma idxmin_first {L : Type} (s : series L) k j0 w0 :
  s !! k = Some (j0, Some w0) ->
  exists n i v,
    idxmin s = Ok (Some i) /\
    s !! n = Some (i, Some v) /\
    (forall m j w, s !! m = Some (j, Some w) -> (v <= w)%Q) /\
    (forall m j w, (m < n)%nat -> s !! m = Some (j, Some w) -> (v < w)%Q).
Proof.
  intros Hk.
  destruct (arg_scan_first (L := L) (fun v b => Qltb v b)) with (s := s) (k := k) (j0 := j0) (w0 := w0)
    as (n & i & v & Hscan & Hn & Hall & Hfirst); [| | |done|].
  - intros a. apply Qltb_ge. apply Qle_refl.
  - intros a b c. rewrite !Qltb_lt. apply Qlt_trans.
  - intros a b x. rewrite !Qltb_lt. intros Hab.
    destruct (Qlt_le_dec x b) as [H|H]; [by right|left].
    by eapply Qlt_le_trans.
  - exists n, i, v. split; [|split; [done|split]].
    + unfold idxmin. destruct s; [done|]. by rewrite Hscan.
    + intros m j w Hm. apply Qltb_ge. by eapply Hall.
    + intros m j w Hmn Hm. apply Qltb_lt. by eapply Hfirst.
Qed.

Lemma idxmax_first {L : Type} (s : series L) k j0 w0 :
  s !! k = Some (j0, Some w0) ->
  exists n i v,
    idxmax s = Ok (Some i) /\
    s !! n = Some (i, Some v) /\
    (forall m j w, s !! m = Some (j, Some w) -> (w <= v)%Q) /\
    (forall m j w, (m < n)%nat -> s !! m = Some (j, Some w) -> (w < v)%Q).
Proof.
  intros Hk.
  destruct (arg_scan_first (L := L) (fun v b => Qltb b v)) with (s := s) (k := k) (j0 := j0) (w0 := w0)
    as (n & i & v & Hscan & Hn & Hall & Hfirst); [| | |done|].
  - intros a. apply Qltb_ge. apply Qle_refl.
  - intros a b c. rewrite !Qltb_lt. intros H1 H2. by eapply Qlt_trans.
  - intros a b x. rewrite !Qltb_lt. intros Hab.
    destruct (Qlt_le_dec b x) as [H|H]; [by right|left].
    by eapply Qle_lt_trans.
  - exists n, i, v. split; [|split; [done|split]].
    + unfold idxmax. destruct s; [done|]. by rewrite Hscan.
    + intros m j w Hm. apply Qltb_ge. by eapply Hall.
    + intros m j w Hmn Hm. apply Qltb_lt. by eapply Hfirst.
Qed.

(** ** The funnel aggregator *)

Lemma funnel_metrics_entries (df : list Funnel.event) (stages : list string) :
  exists fm,
    Funnel.funnel_metrics df stages = Ok fm /\
    length fm = length stages /\
    forall i st, stages !! i = Some st ->
      exists m, fm !! i = Some m /\ Funnel.stage_name m = st /\
                Funnel.users m = Funnel.stage_users df st.
Proof.
  eexists. split; [apply funnel_metrics_unfold|].
  split; [apply metrics_from_length|].
  intros i st. apply metrics_from_lookup.
Qed.


(** C3. The metrics sequence has one entry per configured stage, holding
    the distinct users of that stage; the first entry's stage conversion
    is 100, and every later entry's is its user count over the previous
    entry's, times 100, or 0 when the previous count is not positive. *)
Theorem funnel_stage_conversion (df : list Funnel.event) (stages : list string) :
  exists fm,
    Funnel.funnel_metrics df stages = Ok fm /\
    length fm = length stages /\
    (forall i st, stages !! i = Some st ->
       exists m, fm !! i = Some m /\ Funnel.stage_name m = st /\
                 Funnel.users m = Funnel.stage_users df st) /\
    (forall m, fm !! 0%nat = Some m -> Funnel.stage_conversion m = 100%Q) /\
    (forall i m_prev m,
       fm !! i = Some m_prev -> fm !! S i = Some m ->
       Funnel.stage_conversion m =
         if 0 <? Funnel.users m_prev
         then (Qz (Funnel.users m) / Qz (Funnel.users m_prev) * 100)%Q
         else 0%Q).
Proof.
  eexists. split; [apply funnel_metrics_unfold|].
  split; [apply metrics_from_length|].
  split; [intros i st; apply metrics_from_lookup|].
  split.
  - intros m Hm. by rewrite (metrics_from_head _ _ _ _ _ Hm).
  - intros i m_prev m. apply metrics_from_succ.
Qed.

Lemma funnel_stage_conversion_witness :
  exists fm m,
    Funnel.funnel_metrics funnel_scenario funnel_scenario_stages = Ok fm /\
    fm !! 1%nat = Some m /\
    Funnel.stage_conversion m = (Qz 2 / Qz 3 * 100)%Q.
Proof.
  destruct (funnel_stage_conversion funnel_scenario funnel_scenario_stages)
    as (fm & Hfm & _ & Hst & _ & Hsucc).
  destruct (Hst 0%nat "lead" eq_refl) as (m0 & Hm0 & _ & Hu0).
  destruct (Hst 1%nat "qualified" eq_refl) as (m1 & Hm1 & _ & Hu1).
  exists fm, m1. split; [exact Hfm|]. split; [exact Hm1|].
  rewrite (Hsucc 0%nat m0 m1 Hm0 Hm1), Hu0, Hu1. reflexivity.
Defined.

Lemma dropoff_analysis_lookup (fm : list Funnel.metric) :
  exists drops,
    Funnel.dropoff_analysis fm = Ok drops /\
    length drops = (length fm - 1)%nat /\
    forall i cur nxt,
      fm !! i = Some cur -> fm !! S i = Some nxt ->
      drops !! i =
        Some {| Funnel.from_stage := Funnel.stage_name cur;
                Funnel.to_stage := Funnel.stage_name nxt;
                Funnel.dropoff := Funnel.users cur - Funnel.users nxt;
                Funnel.dropoff_rate :=
                  if 0 <? Funnel.users cur
                  then (Qz (Funnel.users cur - Funnel.users nxt)
                        / Qz (Funnel.users cur) * 100)%Q
                  else 0%Q |}.
Proof.
  set (line := fun cur nxt =>
         {| Funnel.from_stage := Funnel.stage_name cur;
            Funnel.to_stage := Funnel.stage_name nxt;
            Funnel.dropoff := Funnel.users cur - Funnel.users nxt;
            Funnel.dropoff_rate :=
              if 0 <? Funnel.users cur
              then (Qz (Funnel.users cur - Funnel.users nxt)
                    / Qz (Funnel.users cur) * 100)%Q
              else 0%Q |}).
  set (g := fun i : nat =>
         match fm !! i, fm !! (i + 1)%nat with
         | Some cur, Some nxt => line cur nxt
         | _, _ => Funnel.Dropoff EmptyString EmptyString 0 0%Q
         end).
  exists (map g (seq 0 (length fm - 1))). split; [|split].
  - unfold Funnel.dropoff_analysis. apply mapR_seq_ok.
    intros i Hi. unfold Funnel.dropoff_at, g.
    destruct (lookup_lt_is_Some_2 fm i) as [cur Hcur]; [lia|].
    destruct (lookup_lt_is_Some_2 fm (i + 1)) as [nxt Hnxt]; [lia|].
    by rewrite Hcur, Hnxt.
  - by rewrite length_map, length_seq.
  - intros i cur nxt Hcur Hnxt.
    pose proof (lookup_lt_Some _ _ _ Hnxt) as Hlt.
    rewrite list_lookup_fmap, lookup_seq_lt by lia. simpl.
    unfold g. replace (i + 1)%nat with (S i) by lia.
    by rewrite Hcur, Hnxt.
Qed.

(** C7. Between consecutive configured stages the drop-off is the
    previous stage's distinct-user count minus the current one's, and the
    rate is that difference over the previous count, times 100, or 0 when
    the previous count is not positive. *)
Theorem funnel_dropoff (df : list Funnel.event) (stages : list string) :
  exists fm drops,
    Funnel.funnel_metrics df stages = Ok fm /\
    Funnel.dropoff_analysis fm = Ok drops /\
    length drops = (length stages - 1)%nat /\
    forall i st st',
      stages !! i = Some st -> stages !! S i = Some st' ->
      exists d,
        drops !! i = Some d /\
        Funnel.from_stage d = st /\ Funnel.to_stage d = st' /\
        Funnel.dropoff d = Funnel.stage_users df st - Funnel.stage_users df st' /\
        Funnel.dropoff_rate d =
          if 0 <? Funnel.stage_users df st
          then (Qz (Funnel.stage_users df st - Funnel.stage_users df st')
                / Qz (Funnel.stage_users df st) * 100)%Q
          else 0%Q.
Proof.
  destruct (funnel_metrics_entries df stages) as (fm & Hfm & Hlen & Hst).
  destruct (dropoff_analysis_lookup fm) as (drops & Hdrops & Hdlen & Hlook).
  exists fm, drops. split; [done|]. split; [done|]. split; [by rewrite Hdlen, Hlen|].
  intros i st st' Hi HSi.
  destruct (Hst _ _ Hi) as (cur & Hcur & <- & Hucur).
  destruct (Hst _ _ HSi) as (nxt & Hnxt & <- & Hunxt).
  eexists. split; [by apply Hlook|]. simpl.
  rewrite Hucur, Hunxt. done.
Qed.

Lemma funnel_dropoff_witness :
  exists fm drops d,
    Funnel.funnel_metrics funnel_scenario funnel_scenario_stages = Ok fm /\
    Funnel.dropoff_analysis fm = Ok drops /\
    drops !! 0%nat = Some d /\
    Funnel.dropoff d = 1 /\
    Funnel.dropoff_rate d = (Qz 1 / Qz 3 * 100)%Q.
Proof.
  destruct (funnel_dropoff funnel_scenario funnel_scenario_stages)
    as (fm & drops & Hfm & Hdrops & _ & Hd).
  destruct (Hd 0%nat "lead" "qualified" eq_refl eq_refl)
    as (d & Hd0 & _ & _ & Hdrop & Hrate).
  exists fm, drops, d. split; [exact Hfm|]. split; [exact Hdrops|].
  split; [exact Hd0|]. split; [exact Hdrop|exact Hrate].
Defined.

Lemma stage_conversions_drop1 (fm : list Funnel.metric) (n : nat) j x :
  drop 1 (Funnel.stage_conversions fm) !! n = Some (j, x) <->
  j = S n /\ exists m, fm !! S n = Some m /\ x = Some (Funnel.stage_conversion m).
Proof.
  unfold Funnel.stage_conversions. rewrite lookup_drop, list_lookup_imap.
  simpl. destruct (fm !! S n) as [m|]; simpl.
  - split.
    + intros H. simplify_eq. eauto.
    + intros (-> & m' & Hm & ->). by simplify_eq.
  - split; [done|]. by intros (_ & m' & Hm & _).
Qed.

(** C8. With at least two configured stages, the biggest-drop-off stage
    is the first stage after the first one whose stage conversion is
    lowest, and the best-conversion stage the first one whose stage
    conversion is highest. *)
Theorem funnel_extreme_stages (df : list Funnel.event) (stages : list string) :
  (2 <= length stages)%nat ->
  exists fm lo hi mlo mhi,
    Funnel.funnel_metrics df stages = Ok fm /\
    idxmin (drop 1 (Funnel.stage_conversions fm)) = Ok (Some lo) /\
    idxmax (drop 1 (Funnel.stage_conversions fm)) = Ok (Some hi) /\
    (1 <= lo < length stages)%nat /\ (1 <= hi < length stages)%nat /\
    fm !! lo = Some mlo /\ fm !! hi = Some mhi /\
    stages !! lo = Some (Funnel.stage_name mlo) /\
    stages !! hi = Some (Funnel.stage_name mhi) /\
    Funnel.insight fm (Some lo)
      = Ok (Some (Funnel.stage_name mlo, Funnel.stage_conversion mlo)) /\
    Funnel.insight fm (Some hi)
      = Ok (Some (Funnel.stage_name mhi, Funnel.stage_conversion mhi)) /\
    forall j m, (1 <= j)%nat -> fm !! j = Some m ->
      (Funnel.stage_conversion mlo <= Funnel.stage_conversion m)%Q /\
      ((j < lo)%nat -> (Funnel.stage_conversion mlo < Funnel.stage_conversion m)%Q) /\
      (Funnel.stage_conversion m <= Funnel.stage_conversion mhi)%Q /\
      ((j < hi)%nat -> (Funnel.stage_conversion m < Funnel.stage_conversion mhi)%Q).
Proof.
  intros Hlen2.
  destruct (funnel_metrics_entries df stages) as (fm & Hfm & Hlen & Hst).
  destruct (lookup_lt_is_Some_2 fm 1) as [m1 Hm1]; [lia|].
  assert (H0 : drop 1 (Funnel.stage_conversions fm) !! 0%nat
               = Some (1%nat, Some (Funnel.stage_conversion m1))).
  { apply stage_conversions_drop1. eauto. }
  destruct (idxmin_first _ _ _ _ H0) as (n & lo & v & Hmin & Hn & Hall & Hfirst).
  destruct (idxmax_first _ _ _ _ H0) as (n' & hi & v' & Hmax & Hn' & Hall' & Hfirst').
  apply stage_conversions_drop1 in Hn as (-> & mlo & Hmlo & Hv).
  apply stage_conversions_drop1 in Hn' as (-> & mhi & Hmhi & Hv').
  simplify_eq.
  pose proof (lookup_lt_Some _ _ _ Hmlo) as Hlo.
  pose proof (lookup_lt_Some _ _ _ Hmhi) as Hhi.
  assert (Hslo : stages !! S n = Some (Funnel.stage_name mlo)).
  { destruct (lookup_lt_is_Some_2 stages (S n)) as [st Hs]; [lia|].
    destruct (Hst _ _ Hs) as (m & Hm & <- & _). by simplify_eq. }
  assert (Hshi : stages !! S n' = Some (Funnel.stage_name mhi)).
  { destruct (lookup_lt_is_Some_2 stages (S n')) as [st Hs]; [lia|].
    destruct (Hst _ _ Hs) as (m & Hm & <- & _). by simplify_eq. }
  exists fm, (S n), (S n'), mlo, mhi.
  repeat (split; [first [done | lia | by unfold Funnel.insight; rewrite ?Hmlo, ?Hmhi]|]).
  intros j m Hj Hm. destruct j as [|j]; [lia|].
  assert (Hs : drop 1 (Funnel.stage_conversions fm) !! j
               = Some (S j, Some (Funnel.stage_conversion m))).
  { apply stage_conversions_drop1. eauto. }
  split; [by eapply Hall|]. split; [intros; eapply Hfirst; [|done]; lia|].
  split; [by eapply Hall'|]. intros; eapply Hfirst'; [|done]; lia.
Qed.

Lemma funnel_extreme_stages_witness :
  exists fm lo hi mlo mhi,
    Funnel.funnel_metrics funnel_scenario funnel_scenario_stages = Ok fm /\
    fm !! lo = Some mlo /\ fm !! hi = Some mhi /\
    Funnel.insight fm (Some lo)
      = Ok (Some (Funnel.stage_name mlo, Funnel.stage_conversion mlo)) /\
    Funnel.insight fm (Some hi)
      = Ok (Some (Funnel.stage_name mhi, Funnel.stage_conversion mhi)).
Proof.
  assert (Hlen : (2 <= length funnel_scenario_stages)%nat) by (simpl; lia).
  destruct (funnel_extreme_stages funnel_scenario funnel_scenario_stages Hlen)
    as (fm & lo & hi & mlo & mhi & Hfm & _ & _ & _ & _ & Hlo & Hhi & _ & _ & Hilo & Hihi & _).
  exists fm, lo, hi, mlo, mhi.
  split; [exact Hfm|]. split; [exact Hlo|]. split; [exact Hhi|].
  split; [exact Hilo|exact Hihi].
Defined.

(** C5 at the inputs where the claim fails.  With nothing in place of the
    stage placeholder the script does not parse, and with the placeholder
    left in place the guard ['{{stages}}' != ''] holds and the name
    [stages] is undefined: in neither case are the stages taken from the
    data, whose distinct stage values in first-seen order the last
    conjunct lists. *)
Theorem funnel_stages_default_unreached :
  (forall df, Funnel.funnel_stages Funnel.StagesEmpty df = Raise SyntaxError) /\
  (forall df, Funnel.funnel_stages Funnel.StagesAbsent df = Raise NameError) /\
  Funnel.aggregate Funnel.StagesEmpty funnel_scenario = Raise SyntaxError /\
  Funnel.aggregate Funnel.StagesAbsent funnel_scenario = Raise NameError /\
  unique (map Funnel.stage funnel_scenario) = funnel_scenario_stages.
Proof. repeat split. Qed.

(** ** Template mode *)

(** C6. With the data placeholder still in place, either script prints
    its banner and the format hint and exits with status 0, whatever the
    loader would do: no record is parsed and no aggregate is computed.
    For the funnel script this covers the stage placeholder left in place
    or replaced by a string literal. *)
Theorem template_mode_exits_zero
    (cohort_loads : string -> option (list Cohort.event))
    (funnel_loads : string -> option (list Funnel.event)) :
  Cohort.main cohort_loads "{{data}}"
    = Exited (Cohort.banner ++ Cohort.format_hint) 0 /\
  Funnel.main funnel_loads Funnel.StagesAbsent "{{data}}"
    = Exited (Funnel.banner ++ Funnel.format_hint) 0 /\
  (forall s, Funnel.main funnel_loads (Funnel.StagesLiteral s) "{{data}}"
             = Exited (Funnel.banner ++ Funnel.format_hint) 0) /\
  last (Cohort.banner ++ Cohort.format_hint)
    = Some "  - event: Event type (optional)" /\
  last (Funnel.banner ++ Funnel.format_hint)
    = Some "  - date: Timestamp of stage entry".
Proof. repeat split. Qed.

(** ** Dates *)

Lemma date_leb_spec (a b : ymd) :
  date_leb a b = true <->
  year a < year b \/
  (year a = year b /\
   (month a < month b \/ (month a = month b /\ day a <= day b))).
Proof.
  unfold date_leb.
  rewrite !orb_true_iff, !andb_true_iff, !orb_true_iff, !andb_true_iff.
  rewrite !Z.ltb_lt, !Z.eqb_eq, Z.leb_le. done.
Qed.

Lemma parseable_month (d : ymd) : parseable d = true -> 1 <= month d <= 12.
Proof.
  unfold parseable. rewrite !andb_true_iff, !Z.leb_le. lia.
Qed.

Lemma date_leb_refl a : date_leb a a = true.
Proof. apply date_leb_spec. lia. Qed.

Lemma date_leb_trans a b c :
  date_leb a b = true -> date_leb b c = true -> date_leb a c = true.
Proof. rewrite !date_leb_spec. lia. Qed.

Lemma date_leb_antisym a b :
  date_leb a b = true -> date_leb b a = true -> a = b.
Proof.
  rewrite !date_leb_spec. destruct a, b. simpl. intros H1 H2.
  f_equal; lia.
Qed.

Lemma date_leb_total a b : date_leb a b = true \/ date_leb b a = true.
Proof. rewrite !date_leb_spec. lia. Qed.

Lemma to_period_M_mono a b :
  parseable a = true -> parseable b = true ->
  date_leb a b = true -> to_period_M a <= to_period_M b.
Proof.
  intros Ha%parseable_month Hb%parseable_month Hab%date_leb_spec.
  unfold to_period_M. lia.
Qed.

Lemma date_min_l a b : date_leb (date_min a b) a = true.
Proof.
  unfold date_min. destruct (date_leb a b) eqn:E; [apply date_leb_refl|].
  by destruct (date_leb_total a b) as [H|H]; [congruence|].
Qed.

Lemma date_min_r a b : date_leb (date_min a b) b = true.
Proof.
  unfold date_min. destruct (date_leb a b) eqn:E; [done|apply date_leb_refl].
Qed.

Lemma date_min_cases a b : date_min a b = a \/ date_min a b = b.
Proof. unfold date_min. destruct (date_leb a b); auto. Qed.

(** The fold of [date_min] is a least element of the seed and the list. *)
Lemma foldr_date_min_least (d : ymd) (l : list ymd) :
  let m := foldr date_min d l in
  (m = d \/ m ∈ l) /\ date_leb m d = true /\ forall x, x ∈ l -> date_leb m x = true.
Proof.
  induction l as [|a l IH]; simpl.
  - split; [by left|]. split; [apply date_leb_refl|]. intros x Hx. by apply elem_of_nil in Hx.
  - destruct IH as (Hin & Hd & Hall).
    set (m := foldr date_min d l) in *.
    split; [|split].
    + destruct (date_min_cases a m) as [->| ->].
      * right. apply elem_of_cons. by left.
      * destruct Hin as [?|?]; [by left|right]. apply elem_of_cons. by right.
    + eapply date_leb_trans; [apply date_min_r|done].
    + intros x Hx. apply elem_of_cons in Hx as [->|Hx].
      * apply date_min_l.
      * eapply date_leb_trans; [apply date_min_r|by apply Hall].
Qed.

(** ** Cohort months and elapsed periods *)

Section CohortRows.

Variable records : list Cohort.event.
Hypothesis records_parseable :
  forall e, e ∈ records -> parseable (Cohort.date e) = true.

Lemma group_elem (u : Z) (d : ymd) :
  d ∈ Cohort.user_dates records u <->
  exists e', e' ∈ records /\ Cohort.user_id e' = u /\ Cohort.date e' = d.
Proof.
  unfold Cohort.user_dates. rewrite list_elem_of_fmap. split.
  - intros (e' & -> & He'). apply list_elem_of_filter in He' as [Hu He']. eauto.
  - intros (e' & He' & Hu & <-). exists e'. split; [done|].
    apply list_elem_of_filter. done.
Qed.

Lemma first_date_le (e : Cohort.event) :
  date_leb (Cohort.first_date records e) (Cohort.date e) = true.
Proof.
  by destruct (foldr_date_min_least (Cohort.date e)
                 (Cohort.user_dates records (Cohort.user_id e))) as (_ & H & _).
Qed.

Lemma first_date_least (e e' : Cohort.event) :
  e' ∈ records -> Cohort.user_id e' = Cohort.user_id e ->
  date_leb (Cohort.first_date records e) (Cohort.date e') = true.
Proof.
  intros He' Hu.
  destruct (foldr_date_min_least (Cohort.date e)
              (Cohort.user_dates records (Cohort.user_id e))) as (_ & _ & H).
  apply H. apply group_elem. eauto.
Qed.

Lemma first_date_attained (e : Cohort.event) :
  e ∈ records ->
  exists e0, e0 ∈ records /\ Cohort.user_id e0 = Cohort.user_id e /\
             Cohort.date e0 = Cohort.first_date records e.
Proof.
  intros He.
  destruct (foldr_date_min_least (Cohort.date e)
              (Cohort.user_dates records (Cohort.user_id e))) as ([Hm|Hm] & _).
  - exists e. done.
  - apply group_elem in Hm as (e0 & ? & ? & ?). by exists e0.
Qed.

Lemma first_date_same_user (e e' : Cohort.event) :
  e ∈ records -> e' ∈ records ->
  Cohort.user_id e = Cohort.user_id e' ->
  Cohort.first_date records e = Cohort.first_date records e'.
Proof.
  intros He He' Hu.
  destruct (first_date_attained e He) as (a & Ha & Hua & Hda).
  destruct (first_date_attained e' He') as (b & Hb & Hub & Hdb).
  apply date_leb_antisym.
  - rewrite <- Hdb. apply first_date_least; [done|congruence].
  - rewrite <- Hda. apply first_date_least; [done|congruence].
Qed.

Lemma first_date_parseable (e : Cohort.event) :
  e ∈ records -> parseable (Cohort.first_date records e) = true.
Proof.
  intros He. destruct (first_date_attained e He) as (a & Ha & _ & <-). auto.
Qed.

Lemma with_periods_elem (r : Cohort.row) :
  r ∈ Cohort.with_periods records <-> exists e, e ∈ records /\ r = Cohort.row_of records e.
Proof.
  unfold Cohort.with_periods. rewrite list_elem_of_fmap.
  split; intros (e & H1 & H2); exists e; done.
Qed.

Lemma period_nonneg (r : Cohort.row) :
  r ∈ Cohort.with_periods records -> 0 <= Cohort.period_number r.
Proof.
  intros (e & He & ->)%with_periods_elem. simpl.
  pose proof (to_period_M_mono _ _ (first_date_parseable e He)
                (records_parseable e He) (first_date_le e)). lia.
Qed.

(** The event that gives a user its first date lies in the user's cohort
    month: every cohort has a user at elapsed period 0. *)
Lemma period_zero_row (r : Cohort.row) :
  r ∈ Cohort.with_periods records ->
  exists r0, r0 ∈ Cohort.with_periods records /\
             Cohort.cohort_month r0 = Cohort.cohort_month r /\
             Cohort.period_number r0 = 0.
Proof.
  intros (e & He & ->)%with_periods_elem.
  destruct (first_date_attained e He) as (e0 & He0 & Hu & Hd).
  exists (Cohort.row_of records e0). split; [apply with_periods_elem; eauto|].
  simpl. rewrite (first_date_same_user e0 e He0 He Hu), Hd. split; [done|lia].
Qed.

End CohortRows.

(** ** Distinct counts, sorted labels, group keys *)

Lemma map_fmap {A B : Type} (f : A -> B) (l : list A) : map f l = f <$> l.
Proof. reflexivity. Qed.

Lemma nunique_nonneg {A : Type} `{EqDecision A} (l : list A) : 0 <= nunique l.
Proof. unfold nunique. lia. Qed.

Lemma nunique_pos {A : Type} `{EqDecision A} (l : list A) :
  0 < nunique l <-> exists x, x ∈ l.
Proof.
  unfold nunique. destruct (remove_dups l) as [|a k] eqn:E; simpl.
  - split; [lia|]. intros [x Hx]. apply elem_of_remove_dups in Hx.
    rewrite E in Hx. by apply elem_of_nil in Hx.
  - split; [|lia]. intros _. exists a. apply elem_of_remove_dups.
    rewrite E. by left.
Qed.

Lemma sort_labels_elem (x : Z) (l : list Z) : x ∈ sort_labels l <-> x ∈ l.
Proof.
  unfold sort_labels. rewrite merge_sort_Permutation. apply elem_of_remove_dups.
Qed.

Lemma sort_labels_NoDup (l : list Z) : NoDup (sort_labels l).
Proof.
  unfold sort_labels. rewrite merge_sort_Permutation. apply NoDup_remove_dups.
Qed.

Lemma sort_labels_sorted (l : list Z) : StronglySorted Z.le (sort_labels l).
Proof. unfold sort_labels. apply StronglySorted_merge_sort; apply _. Qed.

Lemma StronglySorted_le_lt (l : list Z) :
  StronglySorted Z.le l -> NoDup l -> StronglySorted Z.lt l.
Proof.
  induction 1 as [|x l Hl IH Hx]; intros Hnd; [constructor|].
  apply NoDup_cons in Hnd as [Hnotin Hnd].
  constructor; [by apply IH|].
  rewrite Forall_forall in Hx |- *. intros y Hy.
  specialize (Hx y Hy). assert (x <> y) by (intros ->; done). lia.
Qed.

Lemma sort_labels_strict (l : list Z) : StronglySorted Z.lt (sort_labels l).
Proof.
  apply StronglySorted_le_lt; [apply sort_labels_sorted|apply sort_labels_NoDup].
Qed.

(** Two strictly increasing lists with the same elements are equal. *)
Lemma strictly_sorted_ext (l k : list Z) :
  StronglySorted Z.lt l -> StronglySorted Z.lt k ->
  (forall x, x ∈ l <-> x ∈ k) -> l = k.
Proof.
  assert (Hnd : forall l, StronglySorted Z.lt l -> NoDup l).
  { induction 1 as [|x l' Hl' IH Hx]; [constructor|].
    apply NoDup_cons. split; [|done].
    intros Hin. rewrite Forall_forall in Hx. specialize (Hx x Hin). lia. }
  intros Hl Hk Hext.
  apply (StronglySorted_unique_strong Z.lt); [intros; lia|done|done|].
  apply NoDup_Permutation; auto.
Qed.

Lemma sort_labels_ext (l k : list Z) :
  (forall x, x ∈ l <-> x ∈ k) -> sort_labels l = sort_labels k.
Proof.
  intros H. apply strictly_sorted_ext; try apply sort_labels_strict.
  intros x. by rewrite !sort_labels_elem.
Qed.

(** A sorted list of non-negative labels that contains 0 starts with 0. *)
Lemma sorted_head_zero (l : list Z) :
  StronglySorted Z.le l -> (forall x, x ∈ l -> 0 <= x) -> 0 ∈ l ->
  exists l', l = 0 :: l'.
Proof.
  intros Hs Hpos H0. destruct l as [|a l]; [by apply elem_of_nil in H0|].
  exists l. f_equal.
  apply StronglySorted_cons in Hs as [Ha _]. rewrite Forall_forall in Ha.
  assert (0 <= a) by (apply Hpos; by left).
  apply elem_of_cons in H0 as [->|H0]; [done|]. specialize (Ha 0 H0). lia.
Qed.

(** In a strictly increasing list that starts at 0 the label at position
    [k] is at least [k]. *)
Lemma strictly_sorted_lookup_ge (l : list Z) (b : Z) :
  StronglySorted Z.lt l -> (forall x, x ∈ l -> b <= x) ->
  forall k x, l !! k = Some x -> b + Z.of_nat k <= x.
Proof.
  intros Hs. revert b. induction Hs as [|a l Hl IH Ha]; intros b Hb k x Hk; [done|].
  destruct k as [|k]; simpl in Hk.
  - simplify_eq. assert (b <= x) by (apply Hb; by left). lia.
  - assert (b <= a) by (apply Hb; by left).
    rewrite Forall_forall in Ha.
    assert (b + 1 + Z.of_nat k <= x); [|lia].
    apply IH; [|done]. intros y Hy. specialize (Ha y Hy). lia.
Qed.

Section GroupBy.

Variable rows : list Cohort.row.

Lemma cell_count_nonneg (c p : Z) : 0 <= Cohort.cell_count rows c p.
Proof. apply nunique_nonneg. Qed.

Lemma cell_count_pos (c p : Z) :
  0 < Cohort.cell_count rows c p <-> exists r, r ∈ rows /\ Cohort.key r = (c, p).
Proof.
  unfold Cohort.cell_count. rewrite nunique_pos. setoid_rewrite list_elem_of_fmap.
  setoid_rewrite list_elem_of_filter. split.
  - intros (u & r & _ & Hk & Hr). by exists r.
  - intros (r & Hr & Hk). exists (Cohort.r_user_id r), r. done.
Qed.

Lemma group_keys_elem (k : Z * Z) :
  k ∈ merge_sort Cohort.key_le (remove_dups (map Cohort.key rows)) <->
  exists r, r ∈ rows /\ Cohort.key r = k.
Proof.
  rewrite merge_sort_Permutation, elem_of_remove_dups, map_fmap, list_elem_of_fmap.
  split; intros (r & H1 & H2); by exists r.
Qed.

Lemma find_keyed (g : Z * Z -> Z) (ks : list (Z * Z)) (k : Z * Z) :
  find (fun r : Z * Z * Z => bool_decide (r.1 = k)) (map (fun k => (k.1, k.2, g k)) ks)
  = if decide (k ∈ ks) then Some (k.1, k.2, g k) else None.
Proof.
  induction ks as [|k0 ks IH]; simpl.
  - destruct (decide (k ∈ [])) as [H|H]; [by apply elem_of_nil in H|done].
  - destruct k0 as [a b], k as [c p]. simpl in *.
    case_bool_decide as Hk.
    + simplify_eq. rewrite decide_True; [done|by left].
    + rewrite IH. destruct (decide ((c, p) ∈ ks)) as [H|H].
      * rewrite decide_True; [done|by right].
      * rewrite decide_False; [done|]. intros [?|?]%elem_of_cons; by simplify_eq.
Qed.

Lemma cd_value_cohort_data (c p : Z) :
  Cohort.cd_value (Cohort.cohort_data rows) c p
  = if 0 <? Cohort.cell_count rows c p
    then Some (Qz (Cohort.cell_count rows c p)) else None.
Proof.
  unfold Cohort.cd_value, Cohort.cohort_data.
  rewrite (find_keyed (fun k => Cohort.cell_count rows k.1 k.2)). simpl.
  destruct (decide _) as [H|H]; apply group_keys_elem in H || rewrite group_keys_elem in H.
  - apply cell_count_pos in H. apply Z.ltb_lt in H. by rewrite H.
  - rewrite <- cell_count_pos in H. apply Z.ltb_nlt in H. by rewrite H.
Qed.

Lemma pivot_index_elem (c : Z) :
  c ∈ Cohort.index (Cohort.pivot (Cohort.cohort_data rows)) <->
  exists r, r ∈ rows /\ Cohort.cohort_month r = c.
Proof.
  simpl. rewrite sort_labels_elem, map_fmap, list_elem_of_fmap.
  unfold Cohort.cohort_data. setoid_rewrite map_fmap.
  setoid_rewrite list_elem_of_fmap. split.
  - intros (x & -> & k & -> & Hk). apply group_keys_elem in Hk as (r & Hr & <-).
    exists r. done.
  - intros (r & Hr & <-). eexists. split; [|eexists; split; [done|]].
    2:{ apply group_keys_elem. exists r. done. }
    done.
Qed.

Lemma pivot_columns_elem (p : Z) :
  p ∈ Cohort.columns (Cohort.pivot (Cohort.cohort_data rows)) <->
  exists r, r ∈ rows /\ Cohort.period_number r = p.
Proof.
  simpl. rewrite sort_labels_elem, map_fmap, list_elem_of_fmap.
  unfold Cohort.cohort_data. setoid_rewrite map_fmap.
  setoid_rewrite list_elem_of_fmap. split.
  - intros (x & -> & k & -> & Hk). apply group_keys_elem in Hk as (r & Hr & <-).
    exists r. done.
  - intros (r & Hr & <-). eexists. split; [|eexists; split; [done|]].
    2:{ apply group_keys_elem. exists r. done. }
    done.
Qed.

End GroupBy.

(** ** Frames given cell by cell *)

Lemma index_of_elem (x : Z) (l : list Z) :
  x ∈ l -> exists i, Cohort.index_of x l = Some i /\ l !! i = Some x.
Proof.
  induction l as [|y l IH]; intros Hx; [by apply elem_of_nil in Hx|].
  simpl. destruct (decide (x = y)) as [->|Hne].
  - exists 0%nat. done.
  - apply elem_of_cons in Hx as [?|Hx]; [done|].
    destruct (IH Hx) as (i & Hi & Hl). exists (S i). by rewrite Hi.
Qed.

Section Tabulate.

Variables idx cols : list Z.
Variable f : Z -> Z -> option Q.

Lemma tabulate_lookup (i j : nat) (c p : Z) :
  idx !! i = Some c -> cols !! j = Some p ->
  exists r, Cohort.values (tabulate idx cols f) !! i = Some r /\ r !! j = Some (f c p).
Proof.
  intros Hi Hj. simpl. exists (map (f c) cols).
  rewrite !map_fmap, !list_lookup_fmap, Hi, Hj. done.
Qed.

Lemma loc_tabulate (c p : Z) :
  c ∈ idx -> p ∈ cols -> Cohort.loc (tabulate idx cols f) c p = Some (f c p).
Proof.
  intros Hc Hp.
  destruct (index_of_elem c idx Hc) as (i & Hi & Hic).
  destruct (index_of_elem p cols Hp) as (j & Hj & Hjp).
  destruct (tabulate_lookup i j c p Hic Hjp) as (r & Hr & Hrj).
  unfold Cohort.loc. simpl in *.
  rewrite Hi. simpl. rewrite Hj. simpl. rewrite Hr. simpl. done.
Qed.

Lemma tabulate_ext (g : Z -> Z -> option Q) :
  (forall c p, c ∈ idx -> p ∈ cols -> f c p = g c p) ->
  tabulate idx cols f = tabulate idx cols g.
Proof.
  intros H. unfold tabulate. f_equal. rewrite !map_fmap.
  apply list_fmap_ext. intros i c Hc. rewrite !map_fmap.
  apply list_fmap_ext. intros j p Hp.
  apply H; eapply list_elem_of_lookup_2; done.
Qed.

Lemma divide_tabulate (g : Z -> option Q) :
  Cohort.divide (tabulate idx cols f) (map g idx)
  = tabulate idx cols (fun c p => Cohort.fdiv (f c p) (g c)).
Proof.
  unfold Cohort.divide, tabulate. simpl. f_equal.
  rewrite !map_fmap, zip_with_fmap_l, zip_with_fmap_r, zip_with_diag.
  apply list_fmap_ext. intros i c _. rewrite !map_fmap, <- list_fmap_compose. done.
Qed.

Lemma times_tabulate (k : Q) :
  Cohort.times (tabulate idx cols f) k
  = tabulate idx cols (fun c p => (fun v => (v * k)%Q) <$> f c p).
Proof.
  unfold Cohort.times, tabulate. simpl. f_equal.
  rewrite !map_fmap, <- list_fmap_compose.
  apply list_fmap_ext. intros i c _. simpl. rewrite !map_fmap, <- list_fmap_compose. done.
Qed.

Lemma iloc_columns_tabulate (a b : nat) :
  Cohort.iloc_columns (tabulate idx cols f) a b
  = tabulate idx (take (b - a) (drop a cols)) f.
Proof.
  unfold Cohort.iloc_columns, tabulate. simpl. f_equal.
  rewrite !map_fmap, <- list_fmap_compose.
  apply list_fmap_ext. intros i c _. simpl.
  by rewrite !map_fmap, fmap_take, fmap_drop.
Qed.

Lemma mean_axis1_tabulate :
  Cohort.mean_axis1 (tabulate idx cols f)
  = map (fun c => (c, mean (map (f c) cols))) idx.
Proof.
  unfold Cohort.mean_axis1, tabulate. simpl.
  rewrite !map_fmap, zip_with_fmap_r, zip_with_diag. done.
Qed.

Lemma mean_axis0_tabulate (j : nat) (p : Z) :
  cols !! j = Some p ->
  Cohort.mean_axis0 (tabulate idx cols f) !! j
  = Some (p, mean (map (fun c => f c p) idx)).
Proof.
  intros Hj. unfold Cohort.mean_axis0, tabulate.
  cbn [Cohort.columns Cohort.values].
  rewrite list_lookup_imap, Hj. simpl. do 3 f_equal.
  rewrite !map_fmap, <- list_fmap_compose.
  apply list_fmap_ext. intros i c _. simpl.
  by rewrite map_fmap, list_lookup_fmap, Hj.
Qed.

End Tabulate.

Lemma iloc_column_tabulate (idx cols : list Z) (f : Z -> Z -> option Q) (p0 : Z) :
  Cohort.iloc_column (tabulate idx (p0 :: cols) f) 0
  = Ok (map (fun c => f c p0) idx).
Proof.
  unfold Cohort.iloc_column. simpl. induction idx as [|c idx' IH]; simpl; [done|].
  by rewrite IH.
Qed.

(** ** The cohort aggregator, table by table *)

Lemma to_datetime_ok (col : list ymd) :
  (forall d, d ∈ col -> parseable d = true) -> to_datetime col = Ok col.
Proof.
  unfold to_datetime. induction col as [|d col IH]; intros H; simpl; [done|].
  rewrite (H d) by (by left). simpl.
  rewrite IH by (intros; apply H; by right). done.
Qed.

Lemma to_datetime_inv (col col' : list ymd) :
  to_datetime col = Ok col' -> forall d, d ∈ col -> parseable d = true.
Proof.
  unfold to_datetime. revert col'. induction col as [|a col IH]; intros col' H d Hd.
  - by apply elem_of_nil in Hd.
  - simpl in H. destruct (parseable a) eqn:Ha; [|done]. simpl in H.
    destruct (mapR _ col) as [ys|] eqn:E; [|done].
    apply elem_of_cons in Hd as [->|Hd]; [done|]. by eapply IH.
Qed.

Lemma Qeq_bool_Qz_pos (n : Z) : 0 < n -> Qeq_bool (Qz n) 0 = false.
Proof.
  intros H. unfold Qeq_bool, Qz, inject_Z. simpl.
  apply Z.eqb_neq. lia.
Qed.

Section CohortTables.

Variable records : list Cohort.event.
Hypothesis records_nonempty : records <> [].
Hypothesis records_parseable :
  forall e, e ∈ records -> parseable (Cohort.date e) = true.

Lemma cohorts_elem (c : Z) :
  c ∈ Cohort.cohorts records <->
  exists r, r ∈ Cohort.with_periods records /\ Cohort.cohort_month r = c.
Proof.
  unfold Cohort.cohorts. rewrite sort_labels_elem, map_fmap, list_elem_of_fmap.
  split; intros (r & H1 & H2); by exists r.
Qed.

Lemma periods_elem (p : Z) :
  p ∈ periods records <->
  exists r, r ∈ Cohort.with_periods records /\ Cohort.period_number r = p.
Proof.
  unfold periods. rewrite sort_labels_elem, map_fmap, list_elem_of_fmap.
  split; intros (r & H1 & H2); by exists r.
Qed.

Lemma count_pos_iff (c p : Z) :
  0 < Cohort.count records c p <->
  exists r, r ∈ Cohort.with_periods records /\
            Cohort.cohort_month r = c /\ Cohort.period_number r = p.
Proof.
  unfold Cohort.count. rewrite cell_count_pos. unfold Cohort.key.
  split; intros (r & Hr & H); exists r; [by simplify_eq|].
  destruct H as [-> ->]. done.
Qed.

Lemma count_pos_labels (c p : Z) :
  0 < Cohort.count records c p -> c ∈ Cohort.cohorts records /\ p ∈ periods records.
Proof.
  intros (r & Hr & Hc & Hp)%count_pos_iff.
  split; [apply cohorts_elem|apply periods_elem]; eauto.
Qed.

Lemma cohorts_nonempty : exists c, c ∈ Cohort.cohorts records.
Proof.
  destruct records as [|e l] eqn:E; [done|]. rewrite <- E.
  exists (Cohort.cohort_month (Cohort.row_of records e)).
  apply cohorts_elem. eexists. split; [|done].
  apply with_periods_elem. exists e. split; [|done]. rewrite E. by left.
Qed.

(** Every cohort month has a user at elapsed period 0. *)
Lemma cohort_size_positive (c : Z) :
  c ∈ Cohort.cohorts records -> 0 < Cohort.count records c 0.
Proof.
  intros (r & Hr & <-)%cohorts_elem.
  destruct (period_zero_row records r Hr) as (r0 & Hr0 & Hc & Hp).
  apply count_pos_iff. eauto.
Qed.

(** The elapsed periods start at 0: the first column is period 0. *)
Lemma periods_head : exists rest, periods records = 0 :: rest.
Proof.
  apply sorted_head_zero.
  - apply sort_labels_sorted.
  - intros p (r & Hr & <-)%periods_elem.
    by apply (period_nonneg records records_parseable).
  - destruct cohorts_nonempty as (c & (r & Hr & _)%cohorts_elem).
    destruct (period_zero_row records r Hr) as (r0 & Hr0 & _ & Hp).
    apply periods_elem. eauto.
Qed.

Lemma pivot_shape :
  Cohort.pivot (Cohort.cohort_data (Cohort.with_periods records))
  = tabulate (Cohort.cohorts records) (periods records) (count_cell records).
Proof.
  set (rows := Cohort.with_periods records).
  assert (Hidx : Cohort.index (Cohort.pivot (Cohort.cohort_data rows))
                 = Cohort.cohorts records).
  { apply strictly_sorted_ext; try apply sort_labels_strict.
    intros c. rewrite cohorts_elem. apply pivot_index_elem. }
  assert (Hcols : Cohort.columns (Cohort.pivot (Cohort.cohort_data rows))
                  = periods records).
  { apply strictly_sorted_ext; try apply sort_labels_strict.
    intros p. rewrite periods_elem. apply pivot_columns_elem. }
  transitivity (tabulate (Cohort.index (Cohort.pivot (Cohort.cohort_data rows)))
                         (Cohort.columns (Cohort.pivot (Cohort.cohort_data rows)))
                         (Cohort.cd_value (Cohort.cohort_data rows))); [done|].
  rewrite Hidx, Hcols. apply tabulate_ext. intros c p _ _.
  apply cd_value_cohort_data.
Qed.

Lemma retention_shape :
  Cohort.times
    (Cohort.divide
       (tabulate (Cohort.cohorts records) (periods records) (count_cell records))
       (map (fun c => count_cell records c 0) (Cohort.cohorts records)))
    100
  = tabulate (Cohort.cohorts records) (periods records)
             (Cohort.retention_rate records).
Proof.
  rewrite divide_tabulate, times_tabulate. apply tabulate_ext.
  intros c p Hc _. unfold count_cell, Cohort.retention_rate.
  pose proof (cohort_size_positive c Hc) as Hs.
  replace (0 <? Cohort.count records c 0) with true by (symmetry; by apply Z.ltb_lt).
  destruct (0 <? Cohort.count records c p); simpl; [|done].
  by rewrite (Qeq_bool_Qz_pos _ Hs).
Qed.

(** The run succeeds and its tables are the cohort table and the
    retention table, cell by cell. *)
Lemma aggregate_shape :
  exists best worst,
    Cohort.aggregate records
    = Ok {| Cohort.cohort_pivot :=
              tabulate (Cohort.cohorts records) (periods records) (count_cell records);
            Cohort.cohort_sizes :=
              map (fun c => count_cell records c 0) (Cohort.cohorts records);
            Cohort.retention :=
              tabulate (Cohort.cohorts records) (periods records)
                       (Cohort.retention_rate records);
            Cohort.avg_retention :=
              Cohort.mean_axis0
                (tabulate (Cohort.cohorts records) (periods records)
                          (Cohort.retention_rate records));
            Cohort.best_cohort := best;
            Cohort.worst_cohort := worst |} /\
    idxmax (map (fun c => (c, mean (map (Cohort.retention_rate records c)
                                        (take 5 (drop 1 (periods records))))))
                (Cohort.cohorts records)) = Ok best /\
    idxmin (map (fun c => (c, mean (map (Cohort.retention_rate records c)
                                        (take 5 (drop 1 (periods records))))))
                (Cohort.cohorts records)) = Ok worst.
Proof.
  destruct cohorts_nonempty as (c0 & Hc0).
  destruct periods_head as (rest & Hrest).
  set (s := map (fun c => (c, mean (map (Cohort.retention_rate records c)
                                       (take 5 (drop 1 (periods records))))))
                (Cohort.cohorts records)).
  assert (Hs : exists x s', s = x :: s').
  { unfold s. destruct (Cohort.cohorts records) as [|c l]; [by apply elem_of_nil in Hc0|].
    simpl. eauto. }
  destruct Hs as (x & s' & Hs).
  exists (arg_scan (fun v b => Qltb b v) None s), (arg_scan (fun v b => Qltb v b) None s).
  split; [|split; unfold idxmax, idxmin; fold s; by rewrite Hs].
  unfold Cohort.aggregate.
  replace (match records with [] => Raise KeyError | _ :: _ => Ok () end)
    with (@Ok unit ()) by (by destruct records).
  cbn [bind]. rewrite to_datetime_ok.
  2:{ intros d (e' & -> & He')%list_elem_of_fmap. by apply records_parseable. }
  cbn [bind]. rewrite pivot_shape.
  rewrite Hrest at 1. rewrite iloc_column_tabulate. cbn [bind].
  rewrite retention_shape, iloc_columns_tabulate, mean_axis1_tabulate.
  change (6 - 1)%nat with 5%nat. fold s.
  unfold idxmax, idxmin. rewrite Hs. cbn [bind]. done.
Qed.

End CohortTables.

Lemma aggregate_ok_inv (records : list Cohort.event) (rep : Cohort.report) :
  Cohort.aggregate records = Ok rep ->
  records <> [] /\ forall e, e ∈ records -> parseable (Cohort.date e) = true.
Proof.
  unfold Cohort.aggregate. intros H.
  destruct records as [|e l] eqn:E; [done|]. rewrite <- E in *. split; [by rewrite E|].
  replace (match records with [] => Raise KeyError | _ :: _ => Ok () end)
    with (@Ok unit ()) in H by (by rewrite E).
  cbn [bind] in H.
  destruct (to_datetime (map Cohort.date records)) as [col|] eqn:Hd; [|done].
  intros e' He'. apply (to_datetime_inv _ _ Hd).
  rewrite map_fmap. apply list_elem_of_fmap. eauto.
Qed.

Lemma index_of_lookup (x : Z) (l : list Z) (i : nat) :
  Cohort.index_of x l = Some i -> l !! i = Some x.
Proof.
  revert i. induction l as [|y l IH]; intros i H; [done|].
  simpl in H. destruct (decide (x = y)) as [->|Hne].
  - by simplify_eq.
  - destruct (Cohort.index_of x l) as [k|]; [|done]. simpl in H. simplify_eq.
    by apply IH.
Qed.

Lemma loc_tabulate_inv (idx cols : list Z) (f : Z -> Z -> option Q) (c p : Z) x :
  Cohort.loc (tabulate idx cols f) c p = Some x ->
  c ∈ idx /\ p ∈ cols /\ x = f c p.
Proof.
  unfold Cohort.loc. simpl. intros H.
  destruct (Cohort.index_of c idx) as [i|] eqn:Hi; [|done]. simpl in H.
  destruct (Cohort.index_of p cols) as [j|] eqn:Hj; [|done]. simpl in H.
  apply index_of_lookup in Hi, Hj.
  destruct (tabulate_lookup idx cols f i j c p Hi Hj) as (r & Hr & Hrj).
  simpl in Hr. rewrite Hr in H. simpl in H. rewrite Hrj in H. simplify_eq.
  split; [by eapply list_elem_of_lookup_2|]. split; [by eapply list_elem_of_lookup_2|done].
Qed.

Lemma Qz_ratio_100 (n : Z) : 0 < n -> (Qz n / Qz n * 100 == 100)%Q.
Proof.
  intros H. unfold Qz. field. intros H0.
  unfold Qeq, inject_Z in H0. simpl in H0. lia.
Qed.

Lemma dropna_retention (records : list Cohort.event) (p : Z) (l : list Z) :
  dropna (map (fun c => Cohort.retention_rate records c p) l)
  = map (fun c => (Qz (Cohort.count records c p)
                   / Qz (Cohort.count records c 0) * 100)%Q)
        (filter (fun c => 0 < Cohort.count records c p) l).
Proof.
  induction l as [|c l IH]; [done|].
  change (dropna (map (fun c => Cohort.retention_rate records c p) (c :: l)))
    with (match Cohort.retention_rate records c p with
          | Some y => y :: dropna (map (fun c => Cohort.retention_rate records c p) l)
          | None => dropna (map (fun c => Cohort.retention_rate records c p) l)
          end).
  rewrite IH. unfold Cohort.retention_rate.
  destruct (Z.ltb_spec 0 (Cohort.count records c p)) as [H|H].
  - by rewrite filter_cons_True by done.
  - by rewrite filter_cons_False by lia.
Qed.

(** ** The cohort aggregator: retention values *)

(** C1. For every pair with a value in the cohort table, that value is
    the distinct-user count of the pair, and the retention table holds
    that count over the cohort's period-0 count, times 100. *)
Theorem retention_is_count_ratio
    (records : list Cohort.event) (rep : Cohort.report) (c p : Z) (n : Q) :
  Cohort.aggregate records = Ok rep ->
  Cohort.loc (Cohort.cohort_pivot rep) c p = Some (Some n) ->
  n = Qz (Cohort.count records c p) /\
  Cohort.loc (Cohort.cohort_pivot rep) c 0
    = Some (Some (Qz (Cohort.count records c 0))) /\
  0 < Cohort.count records c 0 /\
  Cohort.loc (Cohort.retention rep) c p
    = Some (Some (Qz (Cohort.count records c p)
                  / Qz (Cohort.count records c 0) * 100)%Q).
Proof.
  intros Hagg Hloc.
  destruct (aggregate_ok_inv _ _ Hagg) as [Hne Hparse].
  destruct (aggregate_shape records Hne Hparse) as (best & worst & Hshape & _).
  rewrite Hshape in Hagg. injection Hagg as <-. simpl in *.
  apply loc_tabulate_inv in Hloc as (Hc & Hp & Hn).
  pose proof (cohort_size_positive records c Hc) as Hsize.
  destruct (periods_head records Hne Hparse) as (rest & Hrest).
  assert (H0 : 0 ∈ periods records) by (rewrite Hrest; by left).
  unfold count_cell in Hn.
  destruct (Z.ltb_spec 0 (Cohort.count records c p)) as [Hpos|]; [|done].
  simplify_eq. split; [done|]. split; [|split; [done|]].
  - rewrite loc_tabulate by done. unfold count_cell.
    by replace (0 <? Cohort.count records c 0) with true
      by (symmetry; by apply Z.ltb_lt).
  - rewrite loc_tabulate by done. unfold Cohort.retention_rate.
    by replace (0 <? Cohort.count records c p) with true
      by (symmetry; by apply Z.ltb_lt).
Qed.

Lemma retention_is_count_ratio_witness :
  exists rep,
    Cohort.aggregate cohort_scenario = Ok rep /\
    Cohort.loc (Cohort.retention rep) 648 2
    = Some (Some (Qz (Cohort.count cohort_scenario 648 2)
                  / Qz (Cohort.count cohort_scenario 648 0) * 100)%Q).
Proof.
  eexists. split; [reflexivity|].
  refine (proj2 (proj2 (proj2
    (retention_is_count_ratio cohort_scenario _ 648 2 (Qz 1) _ _)))).
  - reflexivity.
  - reflexivity.
Defined.

(** C2. On a non-empty input whose dates all parse, the aggregator
    returns its tables, there is at least one cohort row, and every
    cohort row has a period-0 retention value equal to 100. *)
Theorem period_zero_retention_is_100 (records : list Cohort.event) :
  records <> [] ->
  (forall e, e ∈ records -> parseable (Cohort.date e) = true) ->
  exists rep,
    Cohort.aggregate records = Ok rep /\
    Cohort.index (Cohort.retention rep) <> [] /\
    forall c, c ∈ Cohort.index (Cohort.retention rep) ->
      exists v, Cohort.loc (Cohort.retention rep) c 0 = Some (Some v) /\
                (v == 100)%Q.
Proof.
  intros Hne Hparse.
  destruct (aggregate_shape records Hne Hparse) as (best & worst & Hshape & _).
  eexists. split; [exact Hshape|]. simpl. split.
  - destruct (cohorts_nonempty records Hne Hparse) as (c & Hc).
    intros E. rewrite E in Hc. by apply elem_of_nil in Hc.
  - intros c Hc.
    pose proof (cohort_size_positive records c Hc) as Hsize.
    destruct (periods_head records Hne Hparse) as (rest & Hrest).
    assert (H0 : 0 ∈ periods records) by (rewrite Hrest; by left).
    eexists. split.
    + rewrite loc_tabulate by done. unfold Cohort.retention_rate.
      by replace (0 <? Cohort.count records c 0) with true
        by (symmetry; by apply Z.ltb_lt).
    + by apply Qz_ratio_100.
Qed.

Lemma period_zero_retention_is_100_witness :
  exists rep,
    Cohort.aggregate cohort_scenario = Ok rep /\
    Cohort.index (Cohort.retention rep) <> [] /\
    forall c, c ∈ Cohort.index (Cohort.retention rep) ->
      exists v, Cohort.loc (Cohort.retention rep) c 0 = Some (Some v) /\
                (v == 100)%Q.
Proof.
  apply period_zero_retention_is_100.
  - discriminate.
  - intros e He. unfold cohort_scenario in He.
    repeat (apply elem_of_cons in He as [->|He]; [reflexivity|]).
    by apply elem_of_nil in He.
Defined.

(** C9. A pair of a cohort row and a period column without events is
    missing (NaN) in the cohort table and in the retention table, not 0;
    and the average retention of a period column is the sum of the
    retention values of the cohorts that have events in that period,
    divided by the number of those cohorts. *)
Theorem missing_cells_and_average
    (records : list Cohort.event) (rep : Cohort.report) :
  Cohort.aggregate records = Ok rep ->
  (forall c p,
     c ∈ Cohort.index (Cohort.cohort_pivot rep) ->
     p ∈ Cohort.columns (Cohort.cohort_pivot rep) ->
     Cohort.count records c p = 0 ->
     Cohort.loc (Cohort.cohort_pivot rep) c p = Some None /\
     Cohort.loc (Cohort.retention rep) c p = Some None) /\
  (forall j p,
     Cohort.columns (Cohort.retention rep) !! j = Some p ->
     let present :=
       filter (fun c => 0 < Cohort.count records c p)
              (Cohort.index (Cohort.retention rep)) in
     present <> [] /\
     Cohort.avg_retention rep !! j
     = Some (p, Some (Qsum (map (fun c => (Qz (Cohort.count records c p)
                                           / Qz (Cohort.count records c 0) * 100)%Q)
                                present)
                      / Qz (Z.of_nat (length present)))%Q)).
Proof.
  intros Hagg.
  destruct (aggregate_ok_inv _ _ Hagg) as [Hne Hparse].
  destruct (aggregate_shape records Hne Hparse) as (best & worst & Hshape & _).
  rewrite Hshape in Hagg. injection Hagg as <-. simpl. split.
  - intros c p Hc Hp H0. rewrite !loc_tabulate by done.
    unfold count_cell, Cohort.retention_rate. rewrite H0. done.
  - intros j p Hj.
    assert (Hpresent : filter (fun c => 0 < Cohort.count records c p)
                              (Cohort.cohorts records) <> []).
    { apply list_elem_of_lookup_2 in Hj.
      apply periods_elem in Hj as (r & Hr & Hp).
      assert (Hin : Cohort.cohort_month r
                    ∈ filter (fun c => 0 < Cohort.count records c p)
                             (Cohort.cohorts records)).
      { apply list_elem_of_filter. split.
        - apply count_pos_iff. eauto.
        - apply cohorts_elem. eauto. }
      intros E. rewrite E in Hin. by apply elem_of_nil in Hin. }
    split; [done|].
    rewrite (mean_axis0_tabulate _ _ _ _ _ Hj). do 2 f_equal.
    unfold mean. rewrite dropna_retention.
    destruct (filter _ (Cohort.cohorts records)) as [|c0 l] eqn:E; [done|].
    cbn [map length]. by rewrite length_map.
Qed.

Lemma missing_cells_and_average_witness :
  exists rep,
    Cohort.aggregate gap_scenario = Ok rep /\
    Cohort.index (Cohort.cohort_pivot rep) = [648; 649] /\
    Cohort.columns (Cohort.cohort_pivot rep) = [0; 1; 7] /\
    Cohort.loc (Cohort.cohort_pivot rep) 649 7 = Some None /\
    Cohort.loc (Cohort.retention rep) 649 7 = Some None /\
    Cohort.avg_retention rep !! 2%nat
    = Some (7, Some (Qsum [(Qz (Cohort.count gap_scenario 648 7)
                            / Qz (Cohort.count gap_scenario 648 0) * 100)%Q]
                     / Qz 1)%Q).
Proof.
  assert (H : exists rep, Cohort.aggregate gap_scenario = Ok rep /\
                Cohort.index (Cohort.cohort_pivot rep) = [648; 649] /\
                Cohort.columns (Cohort.cohort_pivot rep) = [0; 1; 7] /\
                Cohort.columns (Cohort.retention rep) !! 2%nat = Some 7 /\
                Cohort.index (Cohort.retention rep) = [648; 649]).
  { eexists. split; [vm_compute; reflexivity|]. repeat split; reflexivity. }
  destruct H as (rep & Hagg & Hidx & Hcols & Hcol2 & Hidx'). exists rep.
  split; [exact Hagg|]. split; [exact Hidx|]. split; [exact Hcols|].
  destruct (missing_cells_and_average gap_scenario rep Hagg) as [Hmissing Havg].
  assert (Hc : 649 ∈ Cohort.index (Cohort.cohort_pivot rep)).
  { rewrite Hidx. right. left. }
  assert (Hp : 7 ∈ Cohort.columns (Cohort.cohort_pivot rep)).
  { rewrite Hcols. right. right. left. }
  assert (H0 : Cohort.count gap_scenario 649 7 = 0) by (vm_compute; reflexivity).
  destruct (Hmissing 649 7 Hc Hp H0) as [Hpivot Hret].
  split; [exact Hpivot|]. split; [exact Hret|].
  destruct (Havg 2%nat 7 Hcol2) as [_ Hmean].
  assert (Hpresent : filter (fun c => 0 < Cohort.count gap_scenario c 7)
                            (Cohort.index (Cohort.retention rep)) = [648]).
  { rewrite Hidx'. vm_compute. reflexivity. }
  rewrite Hpresent in Hmean. exact Hmean.
Defined.

(** ** Best and worst cohort *)

Lemma StronglySorted_filter {A : Type} (R : relation A) (P : A -> Prop)
    `{forall x, Decision (P x)} (l : list A) :
  StronglySorted R l -> StronglySorted R (filter P l).
Proof.
  induction 1 as [|x l Hl IH Hx]; [constructor|].
  destruct (decide (P x)).
  - rewrite filter_cons_True by done. constructor; [done|].
    rewrite Forall_forall in Hx |- *. intros y Hy.
    apply list_elem_of_filter in Hy as [_ Hy]. by apply Hx.
  - by rewrite filter_cons_False by done.
Qed.

Lemma dropna_filter_irrelevant (f : Z -> option Q) (P : Z -> Prop)
    `{forall x, Decision (P x)} (l : list Z) :
  (forall x, x ∈ l -> ~ P x -> f x = None) ->
  dropna (map f (filter P l)) = dropna (map f l).
Proof.
  induction l as [|x l IH]; intros Hf; [done|].
  assert (IH' : dropna (map f (filter P l)) = dropna (map f l)).
  { apply IH. intros y Hy. apply Hf. by right. }
  change (dropna (map f (x :: l)))
    with (match f x with Some y => y :: dropna (map f l) | None => dropna (map f l) end).
  destruct (decide (P x)) as [HP|HP].
  - rewrite filter_cons_True by done.
    change (dropna (map f (x :: filter P l)))
      with (match f x with
            | Some y => y :: dropna (map f (filter P l))
            | None => dropna (map f (filter P l)) end).
    by rewrite IH'.
  - rewrite filter_cons_False by done. rewrite (Hf x) by (done || by left). done.
Qed.

Lemma mean_dropna_eq (l k : list (option Q)) :
  dropna l = dropna k -> mean l = mean k.
Proof. unfold mean. by intros ->. Qed.

Lemma mean_is_Some (l : list (option Q)) (v : Q) :
  Some v ∈ l -> exists m, mean l = Some m.
Proof.
  intros Hv. unfold mean.
  assert (Hin : v ∈ dropna l).
  { unfold dropna. apply list_elem_of_omap. exists (Some v). done. }
  destruct (dropna l) as [|q vs]; [by apply elem_of_nil in Hin|]. eauto.
Qed.

Section BestWorst.

Variable records : list Cohort.event.
Hypothesis records_nonempty : records <> [].
Hypothesis records_parseable :
  forall e, e ∈ records -> parseable (Cohort.date e) = true.
Hypothesis columns_1_5 :
  Forall (fun p => p <= 5) (take 5 (drop 1 (periods records))).

Lemma columns_at_1_5 :
  take 5 (drop 1 (periods records))
  = filter (fun p => p ∈ periods records) [1; 2; 3; 4; 5].
Proof.
  destruct (periods_head records records_nonempty records_parseable)
    as (rest & Hrest).
  pose proof (sort_labels_strict
                (map Cohort.period_number (Cohort.with_periods records))) as Hs.
  fold (periods records) in Hs. rewrite Hrest in Hs, columns_1_5 |- *.
  apply StronglySorted_cons in Hs as [Hpos Hs]. rewrite Forall_forall in Hpos.
  simpl drop in *. rewrite Forall_forall in columns_1_5.
  apply strictly_sorted_ext.
  - rewrite <- (take_drop 5 rest) in Hs. by apply StronglySorted_app_1_l in Hs.
  - apply StronglySorted_filter. repeat constructor; lia.
  - intros x. rewrite list_elem_of_filter. split.
    + intros Hx. pose proof (columns_1_5 x Hx) as Hle.
      apply elem_of_take in Hx as (i & Hi & _).
      apply list_elem_of_lookup_2 in Hi. pose proof (Hpos x Hi) as Hgt.
      split; [by right|].
      assert (Hcase : x = 1 \/ x = 2 \/ x = 3 \/ x = 4 \/ x = 5) by lia.
      destruct Hcase as [->|[->|[->|[->| ->]]]]; repeat constructor.
    + intros [Hin Hx].
      assert (Hrange : 1 <= x <= 5).
      { repeat (apply elem_of_cons in Hx as [->|Hx]; [lia|]).
        by apply elem_of_nil in Hx. }
      apply elem_of_cons in Hin as [->|Hin]; [lia|].
      apply list_elem_of_lookup_1 in Hin as (k & Hk).
      apply elem_of_take. exists k. split; [done|].
      pose proof (strictly_sorted_lookup_ge rest 1 Hs) as Hge.
      specialize (Hge (fun y Hy => ltac:(specialize (Hpos y Hy); lia)) k x Hk).
      lia.
Qed.

Lemma row_mean_is_mean_1_5 (c : Z) :
  mean (map (Cohort.retention_rate records c) (take 5 (drop 1 (periods records))))
  = Cohort.mean_periods_1_5 records c.
Proof.
  unfold Cohort.mean_periods_1_5. apply mean_dropna_eq.
  rewrite columns_at_1_5. apply dropna_filter_irrelevant.
  intros p _ Hp. unfold Cohort.retention_rate.
  destruct (Z.ltb_spec 0 (Cohort.count records c p)) as [Hpos|]; [|done].
  by apply count_pos_labels in Hpos as [_ ?].
Qed.

End BestWorst.

Lemma mean_1_5_defined (records : list Cohort.event) (c p : Z) :
  1 <= p <= 5 -> 0 < Cohort.count records c p ->
  exists m, Cohort.mean_periods_1_5 records c = Some m.
Proof.
  intros Hp Hpos. unfold Cohort.mean_periods_1_5.
  apply (mean_is_Some _ (Qz (Cohort.count records c p)
                         / Qz (Cohort.count records c 0) * 100)%Q).
  rewrite map_fmap. apply list_elem_of_fmap. exists p. split.
  - unfold Cohort.retention_rate.
    by replace (0 <? Cohort.count records c p) with true
      by (symmetry; by apply Z.ltb_lt).
  - assert (Hcase : p = 1 \/ p = 2 \/ p = 3 \/ p = 4 \/ p = 5) by lia.
    destruct Hcase as [->|[->|[->|[->| ->]]]]; repeat constructor.
Qed.

Lemma arg_scan_Some {L : Type} (better : Q -> Q -> bool) (s : list (L * option Q)) (b : L) :
  (forall a, better a a = false) ->
  (forall a b c, better a b = true -> better b c = true -> better a c = true) ->
  (forall a b x, better a b = true -> better a x = true \/ better x b = true) ->
  arg_scan better None s = Some b ->
  exists n v,
    s !! n = Some (b, Some v) /\
    (forall m j w, s !! m = Some (j, Some w) -> better w v = false) /\
    (forall m j w, (m < n)%nat -> s !! m = Some (j, Some w) -> better v w = true).
Proof.
  intros Hirr Htrans Hcot Hscan.
  destruct (arg_scan_inv better Hirr Htrans Hcot s [] None) as (best' & Hres & Hinv).
  { intros m j x Hm. done. }
  rewrite Hscan in Hres. destruct best' as [[i v]|]; [|done].
  simpl in Hres. simplify_eq. destruct Hinv as (n & Hn & Hall & Hfirst).
  exists n, v. done.
Qed.

(** The best and worst cohort in terms of the row means the script
    computes, for every input. *)
Lemma best_worst_positional
    (records : list Cohort.event) (rep : Cohort.report) :
  Cohort.aggregate records = Ok rep ->
  let s := Cohort.mean_axis1 (Cohort.iloc_columns (Cohort.retention rep) 1 6) in
  map fst s = Cohort.index (Cohort.retention rep) /\
  (forall b, Cohort.best_cohort rep = Some b ->
     exists n v,
       s !! n = Some (b, Some v) /\
       (forall m j w, s !! m = Some (j, Some w) -> (w <= v)%Q) /\
       (forall m j w, (m < n)%nat -> s !! m = Some (j, Some w) -> (w < v)%Q)) /\
  (forall b, Cohort.worst_cohort rep = Some b ->
     exists n v,
       s !! n = Some (b, Some v) /\
       (forall m j w, s !! m = Some (j, Some w) -> (v <= w)%Q) /\
       (forall m j w, (m < n)%nat -> s !! m = Some (j, Some w) -> (v < w)%Q)).
Proof.
  intros Hagg.
  destruct (aggregate_ok_inv _ _ Hagg) as [Hne Hparse].
  destruct (aggregate_shape records Hne Hparse)
    as (best & worst & Hshape & Hbest & Hworst).
  rewrite Hshape in Hagg. injection Hagg as <-. cbn [Cohort.retention
    Cohort.best_cohort Cohort.worst_cohort].
  rewrite iloc_columns_tabulate, mean_axis1_tabulate.
  change (6 - 1)%nat with 5%nat.
  clear Hshape.
  set (s := map (fun c => (c, mean (map (Cohort.retention_rate records c)
                                       (take 5 (drop 1 (periods records))))))
                (Cohort.cohorts records)) in *.
  split.
  { unfold s. cbn [tabulate Cohort.index]. rewrite !map_fmap, <- list_fmap_compose.
    rewrite <- (list_fmap_id (Cohort.cohorts records)) at 2.
    by apply list_fmap_ext. }
  split.
  - intros b ->. unfold idxmax in Hbest. destruct s as [|x s'] eqn:E; [done|].
    rewrite <- E in *. injection Hbest as Hbest.
    destruct (arg_scan_Some (fun v b0 => Qltb b0 v) s b) as (n & v & Hn & Hall & Hfirst);
      [| | |done|].
    + intros a. apply Qltb_ge. apply Qle_refl.
    + intros a b0 c. rewrite !Qltb_lt. intros H1 H2. by eapply Qlt_trans.
    + intros a b0 x0. rewrite !Qltb_lt. intros Hab.
      destruct (Qlt_le_dec b0 x0) as [H|H]; [by right|left].
      by eapply Qle_lt_trans.
    + exists n, v. split; [done|]. split.
      * intros m j w Hm. apply Qltb_ge. by eapply Hall.
      * intros m j w Hmn Hm. apply Qltb_lt. by eapply Hfirst.
  - intros b ->. unfold idxmin in Hworst. destruct s as [|x s'] eqn:E; [done|].
    rewrite <- E in *. injection Hworst as Hworst.
    destruct (arg_scan_Some (fun v b0 => Qltb v b0) s b) as (n & v & Hn & Hall & Hfirst);
      [| | |done|].
    + intros a. apply Qltb_ge. apply Qle_refl.
    + intros a b0 c. rewrite !Qltb_lt. apply Qlt_trans.
    + intros a b0 x0. rewrite !Qltb_lt. intros Hab.
      destruct (Qlt_le_dec x0 b0) as [H|H]; [by right|left].
      by eapply Qlt_le_trans.
    + exists n, v. split; [done|]. split.
      * intros m j w Hm. apply Qltb_ge. by eapply Hall.
      * intros m j w Hmn Hm. apply Qltb_lt. by eapply Hfirst.
Qed.

(** Where the columns at positions 1 to 5 are elapsed periods no larger
    than 5, those row means are the means over elapsed periods 1 to 5. *)
Lemma best_worst_by_label
    (records : list Cohort.event) (rep : Cohort.report) :
  Cohort.aggregate records = Ok rep ->
  Forall (fun p => p <= 5) (take 5 (drop 1 (Cohort.columns (Cohort.retention rep)))) ->
  has_cell_in_periods_1_5 records ->
  highest_over_periods_1_5 records (Cohort.best_cohort rep) /\
  lowest_over_periods_1_5 records (Cohort.worst_cohort rep).
Proof.
  intros Hagg Hcols (c0 & p0 & Hp0 & Hpos0).
  destruct (aggregate_ok_inv _ _ Hagg) as [Hne Hparse].
  destruct (aggregate_shape records Hne Hparse)
    as (best & worst & Hshape & Hbest & Hworst).
  rewrite Hshape in Hagg. injection Hagg as <-. simpl in *.
  set (s := map (fun c => (c, Cohort.mean_periods_1_5 records c))
                (Cohort.cohorts records)).
  assert (Hs : map (fun c => (c, mean (map (Cohort.retention_rate records c)
                                           (take 5 (drop 1 (periods records))))))
                   (Cohort.cohorts records) = s).
  { unfold s. rewrite !map_fmap. apply list_fmap_ext. intros i c _.
    by rewrite row_mean_is_mean_1_5. }
  rewrite Hs in Hbest, Hworst.
  assert (Hlook : forall n i x, s !! n = Some (i, x) ->
            i ∈ Cohort.cohorts records /\ x = Cohort.mean_periods_1_5 records i).
  { intros n i x Hn. unfold s in Hn. rewrite map_fmap, list_lookup_fmap in Hn.
    destruct (Cohort.cohorts records !! n) as [c|] eqn:Hc; [|done].
    simpl in Hn. simplify_eq. split; [by eapply list_elem_of_lookup_2|done]. }
  assert (Hpos : forall c m, c ∈ Cohort.cohorts records ->
            Cohort.mean_periods_1_5 records c = Some m ->
            exists n, s !! n = Some (c, Some m)).
  { intros c m (n & Hn)%list_elem_of_lookup_1 Hm. exists n.
    unfold s. by rewrite map_fmap, list_lookup_fmap, Hn, <- Hm. }
  destruct (mean_1_5_defined records c0 p0 Hp0 Hpos0) as (m0 & Hm0).
  destruct (count_pos_labels records c0 p0 Hpos0) as [Hc0 _].
  destruct (Hpos c0 m0 Hc0 Hm0) as (k & Hk).
  split.
  - destruct (idxmax_first s k c0 m0 Hk) as (n & i & v & Hmax & Hn & Hall & _).
    rewrite Hmax in Hbest. injection Hbest as <-.
    destruct (Hlook _ _ _ Hn) as [Hi Hv].
    exists i, v. split; [done|]. split; [done|]. split; [done|].
    intros c' m' Hc' Hm'. destruct (Hpos c' m' Hc' Hm') as (n' & Hn').
    by eapply Hall.
  - destruct (idxmin_first s k c0 m0 Hk) as (n & i & v & Hmin & Hn & Hall & _).
    rewrite Hmin in Hworst. injection Hworst as <-.
    destruct (Hlook _ _ _ Hn) as [Hi Hv].
    exists i, v. split; [done|]. split; [done|]. split; [done|].
    intros c' m' Hc' Hm'. destruct (Hpos c' m' Hc' Hm') as (n' & Hn').
    by eapply Hall.
Qed.

Lemma row_mean_reported (records : list Cohort.event) (rep : Cohort.report) :
  Cohort.aggregate records = Ok rep ->
  (exists m j w,
     Cohort.mean_axis1 (Cohort.iloc_columns (Cohort.retention rep) 1 6) !! m
     = Some (j, Some w)) ->
  is_Some (Cohort.best_cohort rep) /\ is_Some (Cohort.worst_cohort rep).
Proof.
  intros Hagg (m & j & w & Hm).
  destruct (aggregate_ok_inv _ _ Hagg) as [Hne Hparse].
  destruct (aggregate_shape records Hne Hparse)
    as (best & worst & Hshape & Hbest & Hworst).
  rewrite Hshape in Hagg. injection Hagg as <-.
  cbn [Cohort.retention Cohort.best_cohort Cohort.worst_cohort] in *.
  rewrite iloc_columns_tabulate, mean_axis1_tabulate in Hm.
  change (6 - 1)%nat with 5%nat in Hm.
  destruct (idxmax_first _ _ _ _ Hm) as (n & i & v & Hmax & _).
  destruct (idxmin_first _ _ _ _ Hm) as (n' & i' & v' & Hmin & _).
  rewrite Hmax in Hbest. rewrite Hmin in Hworst.
  injection Hbest as <-. injection Hworst as <-. split; eauto.
Qed.

(** C4, as the code has it.  For every input, a best and a worst cohort
    are reported as soon as some row has a cell in the retention table's
    columns at positions 1 to 5, and the best (worst) cohort is the first
    row, in chronological order, whose mean over those columns, missing
    cells ignored, is highest (lowest).  Provided those columns are
    elapsed periods no larger than 5 (as they are when the observed
    periods are contiguous) and the cohort table has a cell in periods 1
    to 5, the best (worst) cohort is a cohort month whose mean retention
    over elapsed periods 1 to 5 is highest (lowest). *)
Theorem best_worst_cohort_periods_1_5
    (records : list Cohort.event) (rep : Cohort.report) :
  Cohort.aggregate records = Ok rep ->
  let s := Cohort.mean_axis1 (Cohort.iloc_columns (Cohort.retention rep) 1 6) in
  ((exists m j w, s !! m = Some (j, Some w)) ->
   is_Some (Cohort.best_cohort rep) /\ is_Some (Cohort.worst_cohort rep)) /\
  (forall b, Cohort.best_cohort rep = Some b ->
     exists n v,
       s !! n = Some (b, Some v) /\
       (forall m j w, s !! m = Some (j, Some w) -> (w <= v)%Q) /\
       (forall m j w, (m < n)%nat -> s !! m = Some (j, Some w) -> (w < v)%Q)) /\
  (forall b, Cohort.worst_cohort rep = Some b ->
     exists n v,
       s !! n = Some (b, Some v) /\
       (forall m j w, s !! m = Some (j, Some w) -> (v <= w)%Q) /\
       (forall m j w, (m < n)%nat -> s !! m = Some (j, Some w) -> (v < w)%Q)) /\
  (Forall (fun p => p <= 5)
          (take 5 (drop 1 (Cohort.columns (Cohort.retention rep)))) ->
   has_cell_in_periods_1_5 records ->
   highest_over_periods_1_5 records (Cohort.best_cohort rep) /\
   lowest_over_periods_1_5 records (Cohort.worst_cohort rep)).
Proof.
  intros Hagg s.
  destruct (best_worst_positional records rep Hagg) as (_ & Hbest & Hworst).
  split; [exact (row_mean_reported records rep Hagg)|].
  split; [exact Hbest|]. split; [exact Hworst|].
  exact (best_worst_by_label records rep Hagg).
Qed.

Lemma best_worst_cohort_periods_1_5_witness :
  exists rep,
    Cohort.aggregate two_cohort_scenario = Ok rep /\
    Cohort.index (Cohort.retention rep) = [648; 649] /\
    Cohort.best_cohort rep = Some 649 /\
    Cohort.worst_cohort rep = Some 648 /\
    highest_over_periods_1_5 two_cohort_scenario (Cohort.best_cohort rep) /\
    lowest_over_periods_1_5 two_cohort_scenario (Cohort.worst_cohort rep).
Proof.
  assert (H : exists rep, Cohort.aggregate two_cohort_scenario = Ok rep /\
                Cohort.index (Cohort.retention rep) = [648; 649] /\
                Cohort.columns (Cohort.retention rep) = [0; 1] /\
                Cohort.best_cohort rep = Some 649 /\
                Cohort.worst_cohort rep = Some 648).
  { eexists. split; [vm_compute; reflexivity|]. repeat split; reflexivity. }
  destruct H as (rep & Hagg & Hidx & Hcols & Hbest & Hworst). exists rep.
  split; [exact Hagg|]. split; [exact Hidx|].
  split; [exact Hbest|]. split; [exact Hworst|].
  apply (best_worst_cohort_periods_1_5 two_cohort_scenario rep Hagg).
  - rewrite Hcols. simpl.
    repeat (apply List.Forall_cons; [lia|]). apply List.Forall_nil.
  - exists 648, 1. split; [lia|vm_compute; reflexivity].
Defined.

(** C4 as stated fails when the observed elapsed periods have a gap: in
    [gap_scenario] the columns are 0, 1 and 7, the script averages the
    columns at positions 1 and 2 (periods 1 and 7) and reports the cohort
    2024-01 (75 against 60), whose mean over periods 1 to 5 (50) is lower
    than that of the cohort 2024-02 (60). *)
Lemma best_cohort_gap_counterexample :
  has_cell_in_periods_1_5 gap_scenario /\
  exists rep,
    Cohort.aggregate gap_scenario = Ok rep /\
    Cohort.columns (Cohort.retention rep) = [0; 1; 7] /\
    Cohort.best_cohort rep = Some 648 /\
    ~ highest_over_periods_1_5 gap_scenario (Cohort.best_cohort rep).
Proof.
  split.
  - exists 648, 1. split; [lia|vm_compute; reflexivity].
  - assert (H : exists rep, Cohort.aggregate gap_scenario = Ok rep /\
                  Cohort.columns (Cohort.retention rep) = [0; 1; 7] /\
                  Cohort.best_cohort rep = Some 648).
    { eexists. split; [vm_compute; reflexivity|]. split; reflexivity. }
    destruct H as (rep & Hagg & Hcols & Hbest). exists rep.
    split; [exact Hagg|]. split; [exact Hcols|]. split; [exact Hbest|].
    rewrite Hbest. intros (c & m & Hb & _ & Hm & Hall).
    injection Hb as <-.
    assert (Hco : Cohort.cohorts gap_scenario = [648; 649])
      by (vm_compute; reflexivity).
    assert (H649 : 649 ∈ Cohort.cohorts gap_scenario)
      by (rewrite Hco; repeat constructor).
    assert (Hm649 : Cohort.mean_periods_1_5 gap_scenario 649 = Some (300 # 5)%Q)
      by (vm_compute; reflexivity).
    assert (Hm648 : Cohort.mean_periods_1_5 gap_scenario 648 = Some (100 # 2)%Q)
      by (vm_compute; reflexivity).
    specialize (Hall 649 (300 # 5)%Q H649 Hm649).
    rewrite Hm648 in Hm. injection Hm as <-.
    unfold Qle in Hall. simpl in Hall. lia.
Qed.

(** ** Order of the input records *)

Lemma nunique_ext {A : Type} `{EqDecision A} (l k : list A) :
  (forall x, x ∈ l <-> x ∈ k) -> nunique l = nunique k.
Proof.
  intros H. unfold nunique. f_equal. apply Permutation_length.
  apply NoDup_Permutation; try apply NoDup_remove_dups.
  intros x. by rewrite !elem_of_remove_dups.
Qed.

Lemma to_datetime_raise (col : list ymd) :
  ~ (forall d, d ∈ col -> parseable d = true) ->
  to_datetime col = Raise ValueError.
Proof.
  unfold to_datetime. induction col as [|a col IH]; intros H.
  - exfalso. apply H. intros d Hd. by apply elem_of_nil in Hd.
  - simpl. destruct (parseable a) eqn:Ha; [|done]. simpl.
    rewrite IH; [done|]. intros Hall. apply H.
    intros d [->|Hd]%elem_of_cons; auto.
Qed.

Section SameRecords.

Variables records records' : list Cohort.event.
Hypothesis same_records : forall e, e ∈ records <-> e ∈ records'.

Lemma first_date_same_records (e : Cohort.event) :
  e ∈ records ->
  Cohort.first_date records e = Cohort.first_date records' e.
Proof.
  intros He. assert (He' : e ∈ records') by by apply same_records.
  destruct (first_date_attained records e He) as (a & Ha & Hua & Hda).
  destruct (first_date_attained records' e He') as (b & Hb & Hub & Hdb).
  apply date_leb_antisym.
  - rewrite <- Hdb. apply first_date_least; [by apply same_records|done].
  - rewrite <- Hda. apply first_date_least; [by apply same_records|done].
Qed.

Lemma with_periods_same_records (r : Cohort.row) :
  r ∈ Cohort.with_periods records -> r ∈ Cohort.with_periods records'.
Proof.
  intros (e & He & ->)%with_periods_elem. apply with_periods_elem.
  exists e. split; [by apply same_records|].
  unfold Cohort.row_of. by rewrite (first_date_same_records e He).
Qed.

End SameRecords.

Section SameTables.

Variables records records' : list Cohort.event.
Hypothesis same_records : forall e, e ∈ records <-> e ∈ records'.

Lemma with_periods_ext (r : Cohort.row) :
  r ∈ Cohort.with_periods records <-> r ∈ Cohort.with_periods records'.
Proof.
  split; apply with_periods_same_records; [done|].
  intros e. symmetry. apply same_records.
Qed.

Lemma count_ext (c p : Z) : Cohort.count records c p = Cohort.count records' c p.
Proof.
  unfold Cohort.count, Cohort.cell_count. apply nunique_ext. intros u.
  rewrite !map_fmap, !list_elem_of_fmap.
  split; intros (r & -> & [Hk Hr]%list_elem_of_filter); exists r;
    (split; [done|]); apply list_elem_of_filter; (split; [done|]);
    by apply with_periods_ext.
Qed.

Lemma cohorts_ext : Cohort.cohorts records = Cohort.cohorts records'.
Proof.
  unfold Cohort.cohorts. apply sort_labels_ext. intros c.
  rewrite !map_fmap, !list_elem_of_fmap.
  split; intros (r & -> & Hr); exists r; (split; [done|]); by apply with_periods_ext.
Qed.

Lemma periods_ext : periods records = periods records'.
Proof.
  unfold periods. apply sort_labels_ext. intros c.
  rewrite !map_fmap, !list_elem_of_fmap.
  split; intros (r & -> & Hr); exists r; (split; [done|]); by apply with_periods_ext.
Qed.

Lemma count_cell_ext (c p : Z) : count_cell records c p = count_cell records' c p.
Proof. unfold count_cell. by rewrite count_ext. Qed.

Lemma retention_rate_ext (c p : Z) :
  Cohort.retention_rate records c p = Cohort.retention_rate records' c p.
Proof. unfold Cohort.retention_rate. by rewrite !count_ext. Qed.

End SameTables.

Lemma aggregate_raise (records : list Cohort.event) :
  records <> [] ->
  ~ (forall e, e ∈ records -> parseable (Cohort.date e) = true) ->
  Cohort.aggregate records = Raise ValueError.
Proof.
  intros Hne Hbad. unfold Cohort.aggregate.
  replace (match records with [] => Raise KeyError | _ :: _ => Ok () end)
    with (@Ok unit ()) by (by destruct records).
  cbn [bind]. rewrite to_datetime_raise; [done|].
  intros Hall. apply Hbad. intros e He. apply Hall.
  rewrite map_fmap. apply list_elem_of_fmap. eauto.
Qed.

Lemma aggregate_ext (records records' : list Cohort.event) :
  (forall e, e ∈ records <-> e ∈ records') ->
  Cohort.aggregate records = Cohort.aggregate records'.
Proof.
  intros same_records.
  destruct (decide (records = [])) as [->|Hne].
  { destruct records' as [|e1 l1]; [done|].
    exfalso. eapply elem_of_nil. apply same_records. by left. }
  assert (Hne' : records' <> []).
  { intros ->. destruct records as [|e0 l0]; [done|].
    eapply elem_of_nil. apply same_records. by left. }
  pose proof (cohorts_ext records records' same_records) as Hcohorts.
  pose proof (periods_ext records records' same_records) as Hperiods.
  pose proof (count_cell_ext records records' same_records) as Hcell.
  pose proof (retention_rate_ext records records' same_records) as Hrate.
  destruct (decide (Forall (fun e => parseable (Cohort.date e) = true) records))
    as [Hp|Hp]; rewrite Forall_forall in Hp.
  - assert (Hp' : forall e, e ∈ records' -> parseable (Cohort.date e) = true).
    { intros e He. apply Hp. by apply same_records. }
    destruct (aggregate_shape records Hne Hp) as (best & worst & -> & Hb & Hw).
    destruct (aggregate_shape records' Hne' Hp') as (best' & worst' & -> & Hb' & Hw').
    rewrite <- Hcohorts, <- Hperiods in *.
    assert (Hs : map (fun c => (c, mean (map (Cohort.retention_rate records' c)
                                             (take 5 (drop 1 (periods records))))))
                     (Cohort.cohorts records)
                 = map (fun c => (c, mean (map (Cohort.retention_rate records c)
                                               (take 5 (drop 1 (periods records))))))
                       (Cohort.cohorts records)).
    { rewrite !map_fmap. apply list_fmap_ext. intros i c _. do 2 f_equal.
      apply list_fmap_ext. intros j p _. symmetry. apply Hrate. }
    rewrite Hs in Hb', Hw'. rewrite Hb in Hb'. rewrite Hw in Hw'.
    injection Hb' as <-. injection Hw' as <-.
    assert (Hpivot : tabulate (Cohort.cohorts records) (periods records)
                              (count_cell records')
                     = tabulate (Cohort.cohorts records) (periods records)
                                (count_cell records)).
    { apply tabulate_ext. intros. symmetry. apply Hcell. }
    assert (Hret : tabulate (Cohort.cohorts records) (periods records)
                            (Cohort.retention_rate records')
                   = tabulate (Cohort.cohorts records) (periods records)
                              (Cohort.retention_rate records)).
    { apply tabulate_ext. intros. symmetry. apply Hrate. }
    rewrite Hpivot, Hret. do 2 f_equal.
    rewrite !map_fmap. apply list_fmap_ext. intros i c _. apply Hcell.
  - rewrite (aggregate_raise records Hne Hp). symmetry.
    apply (aggregate_raise records' Hne').
    intros Hall. apply Hp. intros e He. apply Hall. by apply same_records.
Qed.

(** C10. Reordering the input records changes nothing: both runs end the
    same way, and when they produce tables the cohort table and the
    retention table are identical. *)
Theorem cohort_tables_permutation_invariant (records records' : list Cohort.event) :
  records ≡ₚ records' ->
  Cohort.aggregate records = Cohort.aggregate records' /\
  forall rep rep',
    Cohort.aggregate records = Ok rep ->
    Cohort.aggregate records' = Ok rep' ->
    Cohort.cohort_pivot rep = Cohort.cohort_pivot rep' /\
    Cohort.retention rep = Cohort.retention rep'.
Proof.
  intros Hperm.
  assert (Hagg : Cohort.aggregate records = Cohort.aggregate records').
  { apply aggregate_ext. intros e. by rewrite Hperm. }
  split; [done|]. intros rep rep' H1 H2. rewrite Hagg, H2 in H1. by simplify_eq.
Qed.

Lemma cohort_tables_permutation_invariant_witness :
  Cohort.aggregate cohort_scenario = Cohort.aggregate (rev cohort_scenario).
Proof.
  apply (cohort_tables_permutation_invariant cohort_scenario (rev cohort_scenario)).
  apply Permutation_rev.
Defined.

(** * Further properties of the two scripts *)

(** ** Cohort script: outcomes, shape and bounds *)

Lemma nunique_subset {A : Type} `{EqDecision A} (l k : list A) :
  (forall x, x ∈ l -> x ∈ k) -> nunique l <= nunique k.
Proof.
  intros H. unfold nunique. apply inj_le. apply submseteq_length.
  apply NoDup_submseteq; [apply NoDup_remove_dups|].
  intros x. rewrite !elem_of_remove_dups. apply H.
Qed.

(** A user active in a later period is counted at period 0 of the same
    cohort. *)
Lemma count_le_size (records : list Cohort.event) (c p : Z) :
  Cohort.count records c p <= Cohort.count records c 0.
Proof.
  unfold Cohort.count, Cohort.cell_count. apply nunique_subset. intros u.
  rewrite !map_fmap, !list_elem_of_fmap.
  intros (r & -> & [Hk Hr]%list_elem_of_filter).
  apply with_periods_elem in Hr as (e & He & ->).
  destruct (first_date_attained records e He) as (e0 & He0 & Hu & Hd).
  exists (Cohort.row_of records e0). split; [simpl; congruence|].
  apply list_elem_of_filter. split; [|apply with_periods_elem; eauto].
  unfold Cohort.key in *. simpl in *.
  rewrite (first_date_same_user records e0 e He0 He Hu), Hd.
  simplify_eq. f_equal. lia.
Qed.

(** X1. How a run of the cohort aggregator ends: with [KeyError] on the
    empty input and with [ValueError] on a non-empty input that holds a
    date outside the calendar; on a non-empty input whose dates are
    well-formed, with years a Timestamp can hold, and in which some
    record falls in a later month than its user's first month, it
    returns the tables and reports a best and a worst cohort. *)
Theorem cohort_aggregate_outcome (records : list Cohort.event) :
  (records = [] -> Cohort.aggregate records = Raise KeyError) /\
  (records <> [] ->
   (exists e, e ∈ records /\ parseable (Cohort.date e) = false) ->
   Cohort.aggregate records = Raise ValueError) /\
  (records <> [] ->
   (forall e, e ∈ records ->
      parseable (Cohort.date e) = true /\ 1678 <= year (Cohort.date e) <= 2261) ->
   (exists r, r ∈ Cohort.with_periods records /\ Cohort.period_number r <> 0) ->
   exists rep,
     Cohort.aggregate records = Ok rep /\
     is_Some (Cohort.best_cohort rep) /\ is_Some (Cohort.worst_cohort rep)).
Proof.
  split; [by intros ->|]. split.
  - intros Hne (e & He & Hbad). apply aggregate_raise; [done|].
    intros Hall. rewrite (Hall e He) in Hbad. done.
  - intros Hne Hvalid (r & Hr & Hp).
    assert (Hparse : forall e, e ∈ records -> parseable (Cohort.date e) = true).
    { intros e He. by destruct (Hvalid e He). }
    destruct (aggregate_shape records Hne Hparse) as (best & worst & Hshape & _).
    eexists. split; [exact Hshape|].
    apply (row_mean_reported records _ Hshape).
    cbn [Cohort.retention]. rewrite iloc_columns_tabulate, mean_axis1_tabulate.
    change (6 - 1)%nat with 5%nat.
    destruct (periods_head records Hne Hparse) as (rest & Hrest).
    assert (Hin : Cohort.period_number r ∈ rest).
    { assert (H : Cohort.period_number r ∈ periods records)
        by (apply periods_elem; eauto).
      rewrite Hrest in H. apply elem_of_cons in H as [?|?]; done. }
    destruct rest as [|p1 rest']; [by apply elem_of_nil in Hin|].
    assert (Hp1 : p1 ∈ periods records) by (rewrite Hrest; right; by left).
    apply periods_elem in Hp1 as (r1 & Hr1 & Hp1).
    assert (Hpos : 0 < Cohort.count records (Cohort.cohort_month r1) p1).
    { apply count_pos_iff. eauto. }
    assert (Hc1 : Cohort.cohort_month r1 ∈ Cohort.cohorts records).
    { apply cohorts_elem. eauto. }
    apply list_elem_of_lookup_1 in Hc1 as (m & Hm).
    rewrite Hrest. cbn [drop take].
    destruct (mean_is_Some
                (map (Cohort.retention_rate records (Cohort.cohort_month r1))
                     (p1 :: take 4 rest'))
                (Qz (Cohort.count records (Cohort.cohort_month r1) p1)
                 / Qz (Cohort.count records (Cohort.cohort_month r1) 0) * 100)%Q)
      as (w & Hw).
    { cbn [map].
      assert (Hrr : Cohort.retention_rate records (Cohort.cohort_month r1) p1
                    = Some (Qz (Cohort.count records (Cohort.cohort_month r1) p1)
                            / Qz (Cohort.count records (Cohort.cohort_month r1) 0)
                            * 100)%Q).
      { unfold Cohort.retention_rate.
        by replace (0 <? Cohort.count records (Cohort.cohort_month r1) p1) with true
          by (symmetry; by apply Z.ltb_lt). }
      rewrite Hrr. by left. }
    exists m, (Cohort.cohort_month r1), w.
    by rewrite map_fmap, list_lookup_fmap, Hm, <- Hw.
Qed.

Lemma cohort_aggregate_outcome_witness :
  exists rep,
    Cohort.aggregate gap_scenario = Ok rep /\
    is_Some (Cohort.best_cohort rep) /\ is_Some (Cohort.worst_cohort rep).
Proof.
  apply (proj2 (proj2 (cohort_aggregate_outcome gap_scenario))).
  - discriminate.
  - intros e He. unfold gap_scenario in He.
    repeat (apply elem_of_cons in He as [->|He]; [split; [reflexivity|simpl; lia]|]).
    by apply elem_of_nil in He.
  - exists (Cohort.row_of gap_scenario (Cohort.Event 1 (Ymd 2024 2 5))). split.
    + apply with_periods_elem. eexists. split; [|reflexivity].
      right. right. left.
    + vm_compute. discriminate.
Defined.

Lemma Qz_ratio_bounds (n s : Z) :
  0 < n -> n <= s ->
  (0 < Qz n / Qz s * 100 /\ Qz n / Qz s * 100 <= 100)%Q.
Proof.
  intros Hn Hs. unfold Qz.
  assert (Hs0 : (0 < inject_Z s)%Q).
  { change 0%Q with (inject_Z 0). rewrite <- Zlt_Qlt. lia. }
  assert (Hn0 : (0 < inject_Z n)%Q).
  { change 0%Q with (inject_Z 0). rewrite <- Zlt_Qlt. lia. }
  assert (Hle : (inject_Z n <= inject_Z s)%Q) by (by rewrite <- Zle_Qle).
  split.
  - apply Qmult_lt_0_compat; [|done].
    apply Qlt_shift_div_l; [done|]. by rewrite Qmult_0_l.
  - assert (H1 : (inject_Z n / inject_Z s <= 1)%Q).
    { apply Qle_shift_div_r; [done|]. by rewrite Qmult_1_l. }
    apply Qle_trans with (1 * 100)%Q; [by apply Qmult_le_compat_r|].
    rewrite Qmult_1_l. apply Qle_refl.
Qed.

(** X2. Every value of the retention table is a percentage above 0 and
    at most 100: a cohort never has more users in a later period than at
    period 0. *)
Theorem retention_between_0_and_100
    (records : list Cohort.event) (rep : Cohort.report) (c p : Z) (v : Q) :
  Cohort.aggregate records = Ok rep ->
  Cohort.loc (Cohort.retention rep) c p = Some (Some v) ->
  (0 < v /\ v <= 100)%Q /\
  Cohort.count records c p <= Cohort.count records c 0.
Proof.
  intros Hagg Hloc.
  destruct (aggregate_ok_inv _ _ Hagg) as [Hne Hparse].
  destruct (aggregate_shape records Hne Hparse) as (best & worst & Hshape & _).
  rewrite Hshape in Hagg. injection Hagg as <-. simpl in *.
  apply loc_tabulate_inv in Hloc as (Hc & Hp & Hv).
  unfold Cohort.retention_rate in Hv.
  destruct (Z.ltb_spec 0 (Cohort.count records c p)) as [Hpos|]; [|done].
  simplify_eq. split; [|apply count_le_size].
  apply Qz_ratio_bounds; [done|apply count_le_size].
Qed.

Lemma retention_between_0_and_100_witness :
  exists rep v,
    Cohort.aggregate cohort_scenario = Ok rep /\
    Cohort.loc (Cohort.retention rep) 648 1 = Some (Some v) /\
    (0 < v /\ v <= 100)%Q.
Proof.
  assert (H : exists rep v, Cohort.aggregate cohort_scenario = Ok rep /\
                Cohort.loc (Cohort.retention rep) 648 1 = Some (Some v)).
  { eexists. eexists. split; [vm_compute; reflexivity|reflexivity]. }
  destruct H as (rep & v & Hagg & Hloc). exists rep, v.
  split; [exact Hagg|]. split; [exact Hloc|].
  exact (proj1 (retention_between_0_and_100 cohort_scenario rep 648 1 v Hagg Hloc)).
Defined.

(** X3. The two tables have the same labels: cohort months in strictly
    increasing order as rows, elapsed periods in strictly increasing
    order starting at 0 as columns; every row has one cell per column,
    and there is one cohort size per row and one average per column. *)
Theorem cohort_table_shape (records : list Cohort.event) (rep : Cohort.report) :
  Cohort.aggregate records = Ok rep ->
  let cp := Cohort.cohort_pivot rep in
  let ret := Cohort.retention rep in
  Cohort.index ret = Cohort.index cp /\
  Cohort.columns ret = Cohort.columns cp /\
  StronglySorted Z.lt (Cohort.index cp) /\
  StronglySorted Z.lt (Cohort.columns cp) /\
  Cohort.columns cp !! 0%nat = Some 0 /\
  length (Cohort.values cp) = length (Cohort.index cp) /\
  length (Cohort.values ret) = length (Cohort.index cp) /\
  Forall (fun r => length r = length (Cohort.columns cp)) (Cohort.values cp) /\
  Forall (fun r => length r = length (Cohort.columns cp)) (Cohort.values ret) /\
  length (Cohort.cohort_sizes rep) = length (Cohort.index cp) /\
  length (Cohort.avg_retention rep) = length (Cohort.columns cp).
Proof.
  intros Hagg.
  destruct (aggregate_ok_inv _ _ Hagg) as [Hne Hparse].
  destruct (aggregate_shape records Hne Hparse) as (best & worst & Hshape & _).
  rewrite Hshape in Hagg. injection Hagg as <-. simpl.
  destruct (periods_head records Hne Hparse) as (rest & Hrest).
  split; [done|]. split; [done|].
  split; [apply sort_labels_strict|]. split; [apply sort_labels_strict|].
  split; [by rewrite Hrest|].
  rewrite !length_map. split; [done|]. split; [done|].
  split; [|split; [|split; [done|]]].
  - rewrite map_fmap. apply Forall_fmap, Forall_forall. intros c _. simpl.
    by rewrite length_map.
  - rewrite map_fmap. apply Forall_fmap, Forall_forall. intros c _. simpl.
    by rewrite length_map.
  - unfold Cohort.mean_axis0. by rewrite length_imap.
Qed.

Lemma cohort_table_shape_witness :
  exists rep,
    Cohort.aggregate cohort_scenario = Ok rep /\
    Cohort.index (Cohort.retention rep) = Cohort.index (Cohort.cohort_pivot rep) /\
    Cohort.columns (Cohort.retention rep) = Cohort.columns (Cohort.cohort_pivot rep).
Proof.
  assert (H : exists rep, Cohort.aggregate cohort_scenario = Ok rep).
  { eexists. vm_compute. reflexivity. }
  destruct H as (rep & Hagg). exists rep. split; [exact Hagg|].
  destruct (cohort_table_shape cohort_scenario rep Hagg) as (H1 & H2 & _).
  split; [exact H1|exact H2].
Defined.

Lemma Qsum_all_eq (vs : list Q) (k : Q) :
  Forall (fun v => (v == k)%Q) vs ->
  (Qsum vs == k * Qz (Z.of_nat (length vs)))%Q.
Proof.
  induction 1 as [|v vs Hv Hvs IH].
  - simpl. unfold Qz. simpl. ring.
  - change (Qsum (v :: vs)) with (v + Qsum vs)%Q. rewrite IH, Hv.
    cbn [length]. rewrite Nat2Z.inj_succ. unfold Z.succ, Qz.
    rewrite inject_Z_plus. ring.
Qed.

Lemma Qz_length_pos {A : Type} (l : list A) :
  l <> [] -> ~ (Qz (Z.of_nat (length l)) == 0)%Q.
Proof.
  intros Hl. destruct l as [|a l]; [done|]. unfold Qz, Qeq. simpl. lia.
Qed.

Lemma filter_all {A : Type} (P : A -> Prop) `{forall x, Decision (P x)} (l : list A) :
  (forall x, x ∈ l -> P x) -> filter P l = l.
Proof.
  induction l as [|a l IH]; intros Hall; [done|].
  rewrite filter_cons_True by (apply Hall; by left).
  f_equal. apply IH. intros x Hx. apply Hall. by right.
Qed.

(** X4. The average retention of elapsed period 0 is 100: every cohort
    has a period-0 cell and each of them is 100. *)
Theorem average_retention_period_zero
    (records : list Cohort.event) (rep : Cohort.report) :
  Cohort.aggregate records = Ok rep ->
  exists v, Cohort.avg_retention rep !! 0%nat = Some (0, Some v) /\ (v == 100)%Q.
Proof.
  intros Hagg.
  destruct (aggregate_ok_inv _ _ Hagg) as [Hne Hparse].
  destruct (aggregate_shape records Hne Hparse) as (best & worst & Hshape & _).
  rewrite Hshape in Hagg. injection Hagg as <-. simpl.
  destruct (periods_head records Hne Hparse) as (rest & Hrest).
  assert (H0 : periods records !! 0%nat = Some 0) by (by rewrite Hrest).
  rewrite (mean_axis0_tabulate _ _ _ _ _ H0).
  unfold mean. rewrite dropna_retention.
  rewrite filter_all by (intros c Hc; by apply cohort_size_positive).
  destruct (cohorts_nonempty records Hne Hparse) as (c0 & Hc0).
  destruct (Cohort.cohorts records) as [|c l] eqn:E; [by apply elem_of_nil in Hc0|].
  rewrite <- E in *.
  set (vs := map _ (Cohort.cohorts records)).
  assert (Hvs : vs <> []) by (unfold vs; by rewrite E).
  destruct vs as [|q vs'] eqn:Evs; [done|]. rewrite <- Evs in *.
  eexists. split; [done|].
  rewrite (Qsum_all_eq vs 100).
  - field. by apply Qz_length_pos.
  - unfold vs. rewrite map_fmap. apply Forall_fmap, Forall_forall.
    intros x Hx. simpl. apply Qz_ratio_100. by apply cohort_size_positive.
Qed.

Lemma average_retention_period_zero_witness :
  exists rep v,
    Cohort.aggregate cohort_scenario = Ok rep /\
    Cohort.avg_retention rep !! 0%nat = Some (0, Some v) /\ (v == 100)%Q.
Proof.
  assert (H : exists rep, Cohort.aggregate cohort_scenario = Ok rep).
  { eexists. vm_compute. reflexivity. }
  destruct H as (rep & Hagg).
  destruct (average_retention_period_zero cohort_scenario rep Hagg) as (v & Hv & H100).
  exists rep, v. split; [exact Hagg|]. split; [exact Hv|exact H100].
Defined.

(** X5. Only the set of records matters: two inputs with the same
    records, in any order and with any repetition, end the same way and
    give the same tables, averages and best and worst cohort. *)
Theorem cohort_duplicates_ignored (records records' : list Cohort.event) :
  (forall e, e ∈ records <-> e ∈ records') ->
  Cohort.aggregate records = Cohort.aggregate records'.
Proof. apply aggregate_ext. Qed.

Lemma cohort_duplicates_ignored_witness :
  Cohort.aggregate (cohort_scenario ++ cohort_scenario)
  = Cohort.aggregate cohort_scenario.
Proof.
  apply cohort_duplicates_ignored. intros e.
  rewrite elem_of_app. split; [by intros [?|?]|by left].
Defined.

(** ** Cohort sizes and the number of users *)

(** Counting a list class by class, over classes that cover it. *)
Lemma partition_sum {A : Type} (g : A -> Z) (C : list Z) :
  NoDup C ->
  forall U : list A,
    (forall x, x ∈ U -> g x ∈ C) ->
    foldr Z.add 0 (map (fun c => Z.of_nat (length (filter (fun x => g x = c) U))) C)
    = Z.of_nat (length U).
Proof.
  induction 1 as [|c C Hc HC IH]; intros U HU.
  - destruct U as [|x U]; [done|].
    exfalso. eapply elem_of_nil. apply (HU x). by left.
  - cbn [map foldr].
    pose proof (Permutation_length
                  (filter_app_complement (fun x => g x = c) U)) as Hlen.
    rewrite length_app in Hlen. rewrite <- Hlen, Nat2Z.inj_add. f_equal.
    rewrite <- (IH (filter (fun x => ~ g x = c) U)).
    + f_equal. rewrite !map_fmap. apply list_fmap_ext. intros i c' Hc'.
      apply list_elem_of_lookup_2 in Hc'. do 2 f_equal.
      rewrite list_filter_filter. apply list_filter_iff.
      intros x. split; [|by intros [? _]].
      intros Hx. split; [done|]. intros Hxc. apply Hc. congruence.
    + intros x [Hne Hx]%list_elem_of_filter.
      specialize (HU x Hx). apply elem_of_cons in HU as [?|?]; done.
Qed.

Section CohortSizes.

Variable records : list Cohort.event.

Lemma user_cohorts_elem (u c : Z) :
  (u, c) ∈ user_cohorts records <->
  exists e, e ∈ records /\ Cohort.user_id e = u /\
            to_period_M (Cohort.first_date records e) = c.
Proof.
  unfold user_cohorts. rewrite elem_of_remove_dups, map_fmap, list_elem_of_fmap.
  split.
  - intros (r & Heq & (e & He & ->)%with_periods_elem). simpl in Heq.
    simplify_eq. eauto.
  - intros (e & He & <- & <-). exists (Cohort.row_of records e).
    split; [done|]. apply with_periods_elem. eauto.
Qed.

Lemma user_cohorts_functional (x y : Z * Z) :
  x ∈ user_cohorts records -> y ∈ user_cohorts records -> x.1 = y.1 -> x = y.
Proof.
  destruct x as [u c], y as [u' c']. simpl.
  intros (e & He & Hu & Hc)%user_cohorts_elem
         (e' & He' & Hu' & Hc')%user_cohorts_elem ->.
  f_equal. rewrite <- Hc, <- Hc'.
  by rewrite (first_date_same_user records e e' He He') by congruence.
Qed.

Lemma user_cohorts_length :
  Z.of_nat (length (user_cohorts records)) = total_users records.
Proof.
  unfold total_users, nunique. f_equal.
  rewrite <- (length_fmap fst (user_cohorts records)).
  apply Permutation_length, NoDup_Permutation.
  - apply NoDup_fmap_2_strong; [|apply NoDup_remove_dups].
    intros x y. apply user_cohorts_functional.
  - apply NoDup_remove_dups.
  - intros u.
    rewrite elem_of_remove_dups, (map_fmap Cohort.user_id), !list_elem_of_fmap.
    split.
    + intros ([u' c] & -> & (e & He & Hu & _)%user_cohorts_elem). eauto.
    + intros (e & -> & He). eexists (_, _). split; [done|].
      apply user_cohorts_elem. eauto.
Qed.

Lemma cohort_size_as_class (c : Z) :
  Cohort.count records c 0
  = Z.of_nat (length (filter (fun x : Z * Z => x.2 = c) (user_cohorts records))).
Proof.
  unfold Cohort.count, Cohort.cell_count, nunique. f_equal.
  rewrite <- (length_fmap fst (filter _ (user_cohorts records))).
  apply Permutation_length, NoDup_Permutation.
  - apply NoDup_remove_dups.
  - apply NoDup_fmap_2_strong.
    + intros x y [_ Hx]%list_elem_of_filter [_ Hy]%list_elem_of_filter.
      by apply user_cohorts_functional.
    + apply NoDup_filter, NoDup_remove_dups.
  - intros u.
    rewrite elem_of_remove_dups, (map_fmap Cohort.r_user_id), !list_elem_of_fmap.
    split.
    + intros (r & -> & [Hk (e & He & ->)%with_periods_elem]%list_elem_of_filter).
      unfold Cohort.key in Hk. simpl in Hk. simplify_eq.
      eexists (_, _). split; [done|]. apply list_elem_of_filter. split; [done|].
      apply user_cohorts_elem. eauto.
    + intros ([u' c'] & -> & [Hc (e & He & Hu & Hfd)%user_cohorts_elem]%list_elem_of_filter).
      simpl in *. subst.
      destruct (first_date_attained records e He) as (e0 & He0 & Hu0 & Hd0).
      exists (Cohort.row_of records e0). split; [simpl; congruence|].
      apply list_elem_of_filter. split; [|apply with_periods_elem; eauto].
      unfold Cohort.key. simpl.
      rewrite (first_date_same_user records e0 e He0 He Hu0), Hd0. f_equal. lia.
Qed.

Lemma cohort_sizes_total :
  foldr Z.add 0 (map (fun c => Cohort.count records c 0) (Cohort.cohorts records))
  = total_users records.
Proof.
  rewrite <- user_cohorts_length.
  rewrite <- (partition_sum (fun x : Z * Z => x.2) (Cohort.cohorts records)).
  - f_equal. rewrite !map_fmap. apply list_fmap_ext. intros i c _.
    apply cohort_size_as_class.
  - apply sort_labels_NoDup.
  - intros [u c] (e & He & Hu & Hc)%user_cohorts_elem. simpl.
    apply cohorts_elem. exists (Cohort.row_of records e).
    split; [apply with_periods_elem; eauto|done].
Qed.

End CohortSizes.

(** X6. The cohort sizes are positive whole numbers, one per cohort
    month, and they add up to the number of distinct users: every user
    belongs to exactly one cohort. *)
Theorem cohort_sizes_sum_to_total_users
    (records : list Cohort.event) (rep : Cohort.report) :
  Cohort.aggregate records = Ok rep ->
  exists sizes : list Z,
    Cohort.cohort_sizes rep = map (fun n => Some (Qz n)) sizes /\
    length sizes = length (Cohort.index (Cohort.cohort_pivot rep)) /\
    Forall (fun n => 0 < n) sizes /\
    foldr Z.add 0 sizes = total_users records.
Proof.
  intros Hagg.
  destruct (aggregate_ok_inv _ _ Hagg) as [Hne Hparse].
  destruct (aggregate_shape records Hne Hparse) as (best & worst & Hshape & _).
  rewrite Hshape in Hagg. injection Hagg as <-. simpl.
  exists (map (fun c => Cohort.count records c 0) (Cohort.cohorts records)).
  split; [|split; [by rewrite length_map|split]].
  - rewrite !map_fmap, <- list_fmap_compose. apply list_fmap_ext.
    intros i c Hc%list_elem_of_lookup_2. simpl. unfold count_cell.
    by replace (0 <? Cohort.count records c 0) with true
      by (symmetry; apply Z.ltb_lt; by apply cohort_size_positive).
  - rewrite map_fmap. apply Forall_fmap, Forall_forall. intros c Hc. simpl.
    by apply cohort_size_positive.
  - apply cohort_sizes_total.
Qed.

Lemma cohort_sizes_sum_to_total_users_witness :
  exists rep sizes,
    Cohort.aggregate gap_scenario = Ok rep /\
    Cohort.cohort_sizes rep = map (fun n => Some (Qz n)) sizes /\
    foldr Z.add 0 sizes = total_users gap_scenario.
Proof.
  assert (H : exists rep, Cohort.aggregate gap_scenario = Ok rep).
  { eexists. vm_compute. reflexivity. }
  destruct H as (rep & Hagg).
  destruct (cohort_sizes_sum_to_total_users gap_scenario rep Hagg)
    as (sizes & Hs & _ & _ & Hsum).
  exists rep, sizes. split; [exact Hagg|]. split; [exact Hs|exact Hsum].
Defined.

(** ** The month-1 insight of the cohort script *)

Lemma mean_axis0_tabulate_map (idx cols : list Z) (f : Z -> Z -> option Q) :
  Cohort.mean_axis0 (tabulate idx cols f)
  = map (fun p => (p, mean (map (fun c => f c p) idx))) cols.
Proof.
  apply list_eq. intros j. rewrite map_fmap, list_lookup_fmap.
  destruct (cols !! j) as [p|] eqn:Hj; simpl.
  - by apply mean_axis0_tabulate.
  - unfold Cohort.mean_axis0, tabulate. cbn [Cohort.columns Cohort.values].
    by rewrite list_lookup_imap, Hj.
Qed.

Lemma find_labelled {V : Type} (g : Z -> V) (cols : list Z) (k : Z) :
  find (fun e : Z * V => bool_decide (e.1 = k)) (map (fun p => (p, g p)) cols)
  = if decide (k ∈ cols) then Some (k, g k) else None.
Proof.
  induction cols as [|p cols IH]; simpl.
  - destruct (decide (k ∈ [])) as [H|H]; [by apply elem_of_nil in H|done].
  - case_bool_decide as Hk.
    + subst. rewrite decide_True; [done|by left].
    + rewrite IH. destruct (decide (k ∈ cols)) as [H|H].
      * rewrite decide_True; [done|by right].
      * rewrite decide_False; [done|]. intros [?|?]%elem_of_cons; by simplify_eq.
Qed.

Lemma Qsum_bounds (vs : list Q) :
  Forall (fun v => (0 < v /\ v <= 100)%Q) vs ->
  (0 <= Qsum vs /\ Qsum vs <= 100 * Qz (Z.of_nat (length vs)))%Q.
Proof.
  induction 1 as [|v vs [Hv0 Hv1] Hvs [IH0 IH1]].
  - simpl. unfold Qz. simpl. split; [apply Qle_refl|].
    rewrite Qmult_0_r. apply Qle_refl.
  - change (Qsum (v :: vs)) with (v + Qsum vs)%Q. split.
    + apply Qle_trans with (0 + 0)%Q; [by rewrite Qplus_0_l; apply Qle_refl|].
      apply Qplus_le_compat; [by apply Qlt_le_weak|done].
    + cbn [length]. rewrite Nat2Z.inj_succ. unfold Z.succ, Qz.
      rewrite inject_Z_plus.
      assert (E : (100 * (inject_Z (Z.of_nat (length vs)) + inject_Z 1)
                   == 100 + 100 * inject_Z (Z.of_nat (length vs)))%Q) by ring.
      rewrite E. by apply Qplus_le_compat.
Qed.

Lemma mean_bounds (vs : list Q) (q : Q) (vs' : list Q) :
  vs = q :: vs' ->
  Forall (fun v => (0 < v /\ v <= 100)%Q) vs ->
  (0 < Qsum vs / Qz (Z.of_nat (length vs)) /\
   Qsum vs / Qz (Z.of_nat (length vs)) <= 100)%Q.
Proof.
  intros Hvs Hall.
  assert (Hn : (0 < Qz (Z.of_nat (length vs)))%Q).
  { rewrite Hvs. unfold Qz, Qlt. simpl. lia. }
  destruct (Qsum_bounds vs Hall) as [_ Hup]. split.
  - apply Qlt_shift_div_l; [done|]. rewrite Qmult_0_l.
    rewrite Hvs in Hall |- *. apply Forall_cons in Hall as [[Hq _] Hall'].
    change (Qsum (q :: vs')) with (q + Qsum vs')%Q.
    destruct (Qsum_bounds vs' Hall') as [Hlow _].
    apply Qlt_le_trans with (q + 0)%Q; [by rewrite Qplus_0_r|].
    apply Qplus_le_compat; [apply Qle_refl|done].
  - by apply Qle_shift_div_r.
Qed.

(** X7. The month-1 insight: when no cohort has an event one month after
    its first month, the month-1 retention is reported as the default 0
    and no drop-off line is printed; otherwise it is a percentage above 0
    and at most 100 and the drop-off printed is 100 minus it. *)
Theorem month_one_insight (records : list Cohort.event) (rep : Cohort.report) :
  Cohort.aggregate records = Ok rep ->
  (1 ∉ Cohort.columns (Cohort.retention rep) ->
   first_month_retention rep = Some 0%Q /\ retention_drop rep = None) /\
  (1 ∈ Cohort.columns (Cohort.retention rep) ->
   exists v,
     first_month_retention rep = Some v /\
     (0 < v /\ v <= 100)%Q /\
     retention_drop rep = Some (100 - v)%Q).
Proof.
  intros Hagg.
  destruct (aggregate_ok_inv _ _ Hagg) as [Hne Hparse].
  destruct (aggregate_shape records Hne Hparse) as (best & worst & Hshape & _).
  rewrite Hshape in Hagg. injection Hagg as <-.
  unfold retention_drop, first_month_retention, series_get. simpl.
  rewrite mean_axis0_tabulate_map, find_labelled. split; intros H1.
  - by rewrite decide_False by done.
  - rewrite decide_True by done.
    unfold mean. rewrite dropna_retention.
    set (present := filter (fun c => 0 < Cohort.count records c 1)
                           (Cohort.cohorts records)).
    assert (Hpresent : exists c l, present = c :: l).
    { apply periods_elem in H1 as (r & Hr & Hp).
      assert (Hin : Cohort.cohort_month r ∈ present).
      { apply list_elem_of_filter. split.
        - apply count_pos_iff. eauto.
        - apply cohorts_elem. eauto. }
      destruct present as [|c l]; [by apply elem_of_nil in Hin|]. eauto. }
    destruct Hpresent as (c & l & Hcl).
    set (vs := map _ present).
    assert (Hvs : exists q vs', vs = q :: vs').
    { unfold vs. rewrite Hcl. simpl. eauto. }
    destruct Hvs as (q & vs' & Hvs).
    assert (Hall : Forall (fun v => (0 < v /\ v <= 100)%Q) vs).
    { unfold vs. rewrite map_fmap. apply Forall_fmap, Forall_forall.
      intros x [Hx _]%list_elem_of_filter. simpl.
      apply Qz_ratio_bounds; [done|apply count_le_size]. }
    destruct (mean_bounds vs q vs' Hvs Hall) as [Hlo Hhi].
    destruct vs as [|q0 vs0] eqn:E; [done|]. rewrite <- E in *.
    eexists. split; [done|]. split; [done|].
    apply Qltb_lt in Hlo. by rewrite Hlo.
Qed.

Lemma month_one_insight_witness :
  exists rep v,
    Cohort.aggregate cohort_scenario = Ok rep /\
    first_month_retention rep = Some v /\
    retention_drop rep = Some (100 - v)%Q.
Proof.
  assert (H : exists rep, Cohort.aggregate cohort_scenario = Ok rep /\
                          1 ∈ Cohort.columns (Cohort.retention rep)).
  { eexists. split; [vm_compute; reflexivity|]. simpl. right. left. }
  destruct H as (rep & Hagg & H1).
  destruct (proj2 (month_one_insight cohort_scenario rep Hagg) H1)
    as (v & Hv & _ & Hdrop).
  exists rep, v. split; [exact Hagg|]. split; [exact Hv|exact Hdrop].
Defined.

(** ** Funnel script: the configured stage list *)

Lemma split_comma_cons (s : string) :
  exists h t, Funnel.split_comma s = h :: t.
Proof.
  induction s as [|c s IH]; simpl; [eauto|].
  destruct (Ascii.eqb c ","); [eauto|].
  destruct IH as (h & t & ->). eauto.
Qed.

Lemma join_comma_cons_char (c : ascii) (h : string) (t : list string) :
  join_comma (String c h :: t) = String c (join_comma (h :: t)).
Proof. by destruct t. Qed.

Lemma configured_stages_parts (s : string) :
  length (Funnel.split_comma s) = S (count_commas s) /\
  Forall (fun p => has_comma p = false) (Funnel.split_comma s) /\
  join_comma (Funnel.split_comma s) = s.
Proof.
  induction s as [|c s (IHlen & IHall & IHjoin)]; simpl.
  - split; [done|]. split; [by repeat constructor|done].
  - destruct (Ascii.eqb c ",") eqn:Ec.
    + apply Ascii.eqb_eq in Ec as ->. simpl. split; [by rewrite IHlen|].
      split; [by constructor|].
      destruct (split_comma_cons s) as (h & t & Hs). rewrite Hs in *.
      by rewrite IHjoin.
    + destruct (split_comma_cons s) as (h & t & Hs). rewrite Hs in *.
      split; [done|]. split.
      * apply Forall_cons in IHall as [Hh Ht]. constructor; [|done].
        simpl. by rewrite Ec.
      * by rewrite join_comma_cons_char, IHjoin.
Qed.

(** X8. A configured stage string is cut at every comma and nowhere
    else, whatever the data: there is one stage more than there are
    commas, no stage name contains a comma, names are kept verbatim
    (empty ones included), and joining them with commas gives back the
    string. *)
Theorem configured_stages_split (s : string) (df : list Funnel.event) :
  Funnel.funnel_stages (Funnel.StagesLiteral s) df = Ok (Funnel.split_comma s) /\
  length (Funnel.split_comma s) = S (count_commas s) /\
  Forall (fun p => has_comma p = false) (Funnel.split_comma s) /\
  join_comma (Funnel.split_comma s) = s.
Proof.
  split; [|apply configured_stages_parts].
  unfold Funnel.funnel_stages. simpl. done.
Qed.

(** ** Funnel script: conversions and drop-offs *)

Lemma Qz_pos (n : Z) : 0 < n -> (0 < Qz n)%Q.
Proof. intros H. unfold Qz, Qlt. simpl. lia. Qed.

Lemma Qz_nonneg (n : Z) : 0 <= n -> (0 <= Qz n)%Q.
Proof. intros H. unfold Qz, Qle. simpl. lia. Qed.

Lemma Qz_le (n s : Z) : n <= s -> (Qz n <= Qz s)%Q.
Proof. intros H. unfold Qz. by rewrite <- Zle_Qle. Qed.

Lemma Qz_ratio_nonneg (n s : Z) :
  0 <= n -> 0 < s -> (0 <= Qz n / Qz s * 100)%Q.
Proof.
  intros Hn Hs. apply Qmult_le_0_compat; [|done].
  apply Qle_shift_div_l; [by apply Qz_pos|].
  rewrite Qmult_0_l. by apply Qz_nonneg.
Qed.

Lemma Qz_ratio_le_100 (n s : Z) :
  n <= s -> 0 < s -> (Qz n / Qz s * 100 <= 100)%Q.
Proof.
  intros Hn Hs.
  apply Qle_trans with (1 * 100)%Q; [|rewrite Qmult_1_l; apply Qle_refl].
  apply Qmult_le_compat_r; [|done].
  apply Qle_shift_div_r; [by apply Qz_pos|].
  rewrite Qmult_1_l. by apply Qz_le.
Qed.

Lemma stage_users_bounds (df : list Funnel.event) (st : string) :
  0 <= Funnel.stage_users df st <= nunique (map Funnel.user_id df).
Proof.
  split; [apply nunique_nonneg|].
  unfold Funnel.stage_users. apply nunique_subset. intros u.
  rewrite !map_fmap, !list_elem_of_fmap.
  intros (e & -> & [_ He]%list_elem_of_filter). eauto.
Qed.

Lemma metrics_from_entry (df : list Funnel.event) (total : Z) (stages : list string) :
  forall prev i m,
    metrics_from df total prev stages !! i = Some m ->
    exists prev' st, m = metric_for df total prev' st /\
      (prev' = prev \/ exists st', prev' = Some (Funnel.stage_users df st')).
Proof.
  induction stages as [|s rest IH]; intros prev i m H; [done|].
  destruct i as [|i]; simpl in H.
  - simplify_eq. eauto.
  - apply IH in H as (prev' & st & -> & [->|H]); eauto 6.
Qed.

(** X9. On non-empty data the total number of users is positive, and
    every stage's user count lies between 0 and that total, so its
    overall conversion is its count over the total, times 100, a
    percentage between 0 and 100; no stage conversion is negative. *)
Theorem overall_conversion_bounds (df : list Funnel.event) (stages : list string) :
  df <> [] ->
  exists fm,
    Funnel.funnel_metrics df stages = Ok fm /\
    0 < nunique (map Funnel.user_id df) /\
    forall i m, fm !! i = Some m ->
      0 <= Funnel.users m <= nunique (map Funnel.user_id df) /\
      Funnel.overall_conversion m
        = (Qz (Funnel.users m) / Qz (nunique (map Funnel.user_id df)) * 100)%Q /\
      (0 <= Funnel.overall_conversion m /\ Funnel.overall_conversion m <= 100)%Q /\
      (0 <= Funnel.stage_conversion m)%Q.
Proof.
  intros Hne.
  assert (Htotal : 0 < nunique (map Funnel.user_id df)).
  { apply nunique_pos. destruct df as [|e l]; [done|].
    exists (Funnel.user_id e). rewrite map_fmap. apply list_elem_of_fmap.
    exists e. split; [done|by left]. }
  eexists. split; [apply funnel_metrics_unfold|]. split; [done|].
  intros i m Hm.
  apply metrics_from_entry in Hm as (prev' & st & -> & Hprev). simpl.
  pose proof (stage_users_bounds df st) as [Hlo Hhi].
  replace (0 <? nunique (map Funnel.user_id df)) with true
    by (symmetry; by apply Z.ltb_lt).
  split; [done|]. split; [done|].
  split; [split; [by apply Qz_ratio_nonneg|by apply Qz_ratio_le_100]|].
  destruct prev' as [p|]; [|done].
  destruct (Z.ltb_spec 0 p); [by apply Qz_ratio_nonneg|apply Qle_refl].
Qed.

Lemma overall_conversion_bounds_witness :
  exists fm,
    Funnel.funnel_metrics funnel_scenario funnel_scenario_stages = Ok fm /\
    0 < nunique (map Funnel.user_id funnel_scenario).
Proof.
  assert (Hne : funnel_scenario <> []) by discriminate.
  destruct (overall_conversion_bounds funnel_scenario funnel_scenario_stages Hne)
    as (fm & Hfm & Htotal & _).
  exists fm. split; [exact Hfm|exact Htotal].
Defined.

Lemma conversion_plus_dropoff_100 (a b : Z) :
  0 < a -> (Qz b / Qz a * 100 + Qz (a - b) / Qz a * 100 == 100)%Q.
Proof.
  intros Ha. unfold Qz, Z.sub. rewrite inject_Z_plus, inject_Z_opp. field.
  intros H0. unfold Qeq, inject_Z in H0. simpl in H0. lia.
Qed.

(** X10. Between consecutive stages, the stage conversion of the later
    stage and the drop-off rate of the step add up to 100 when the
    earlier stage has users: exactly as rationals, hence within
    floating-point tolerance on the script's float64 values.  When the
    earlier stage has no users, both are reported as 0. *)
Theorem stage_conversion_plus_dropoff
    (df : list Funnel.event) (stages : list string) :
  exists fm drops,
    Funnel.funnel_metrics df stages = Ok fm /\
    Funnel.dropoff_analysis fm = Ok drops /\
    forall i m_prev m d,
      fm !! i = Some m_prev -> fm !! S i = Some m -> drops !! i = Some d ->
      (0 < Funnel.users m_prev ->
       (Funnel.stage_conversion m + Funnel.dropoff_rate d == 100)%Q) /\
      (Funnel.users m_prev = 0 ->
       Funnel.stage_conversion m = 0%Q /\ Funnel.dropoff_rate d = 0%Q).
Proof.
  destruct (dropoff_analysis_lookup
              (metrics_from df (nunique (map Funnel.user_id df)) None stages))
    as (drops & Hdrops & _ & Hlook).
  eexists. exists drops. split; [apply funnel_metrics_unfold|]. split; [done|].
  intros i m_prev m d Hprev Hm Hd.
  rewrite (Hlook i m_prev m Hprev Hm) in Hd. injection Hd as <-.
  rewrite (metrics_from_succ _ _ _ _ _ _ _ Hprev Hm). simpl. split.
  - intros Hpos.
    replace (0 <? Funnel.users m_prev) with true by (symmetry; by apply Z.ltb_lt).
    by apply conversion_plus_dropoff_100.
  - intros ->. done.
Qed.

Lemma stage_conversion_plus_dropoff_witness :
  exists fm drops,
    Funnel.funnel_metrics funnel_scenario funnel_scenario_stages = Ok fm /\
    Funnel.dropoff_analysis fm = Ok drops.
Proof.
  destruct (stage_conversion_plus_dropoff funnel_scenario funnel_scenario_stages)
    as (fm & drops & Hfm & Hdrops & _).
  exists fm, drops. split; [exact Hfm|exact Hdrops].
Defined.

(** ** Funnel script: how a run ends *)

Lemma has_comma_count (s : string) :
  (has_comma s = true -> (1 <= count_commas s)%nat) /\
  (has_comma s = false -> Funnel.split_comma s = [s]).
Proof.
  induction s as [|c s [IH1 IH2]]; simpl; [done|].
  destruct (Ascii.eqb c ","); simpl.
  - split; [lia|done].
  - split; [intros H; specialize (IH1 H); lia|].
    intros H. by rewrite (IH2 H).
Qed.

Lemma funnel_insights_ok (fm : list Funnel.metric) :
  (2 <= length fm)%nat ->
  exists lo hi mlo mhi,
    idxmin (drop 1 (Funnel.stage_conversions fm)) = Ok (Some lo) /\
    idxmax (drop 1 (Funnel.stage_conversions fm)) = Ok (Some hi) /\
    fm !! lo = Some mlo /\ fm !! hi = Some mhi.
Proof.
  intros Hlen.
  destruct (lookup_lt_is_Some_2 fm 1) as [m1 Hm1]; [lia|].
  assert (H0 : drop 1 (Funnel.stage_conversions fm) !! 0%nat
               = Some (1%nat, Some (Funnel.stage_conversion m1))).
  { apply stage_conversions_drop1. eauto. }
  destruct (idxmin_first _ _ _ _ H0) as (n & lo & v & Hmin & Hn & _).
  destruct (idxmax_first _ _ _ _ H0) as (n' & hi & v' & Hmax & Hn' & _).
  apply stage_conversions_drop1 in Hn as (-> & mlo & Hmlo & _).
  apply stage_conversions_drop1 in Hn' as (-> & mhi & Hmhi & _).
  exists (S n), (S n'), mlo, mhi. done.
Qed.

Lemma funnel_aggregate_unfold (c : Funnel.stages_placeholder)
    (records : list Funnel.event) (stages : list string) :
  records <> [] ->
  (forall e, e ∈ records -> parseable (Funnel.date e) = true) ->
  Funnel.funnel_stages c records = Ok stages ->
  Funnel.aggregate c records
  = (let fdf := metrics_from records (nunique (map Funnel.user_id records))
                             None stages in
     drops <-- Funnel.dropoff_analysis fdf ;;
     _ <-- (match fdf with [] => Raise KeyError | _ => Ok tt end) ;;
     bi <-- idxmin (drop 1 (Funnel.stage_conversions fdf)) ;;
     big <-- Funnel.insight fdf bi ;;
     be <-- idxmax (drop 1 (Funnel.stage_conversions fdf)) ;;
     best <-- Funnel.insight fdf be ;;
     Ok {| Funnel.stages_used := stages; Funnel.funnel_df := fdf;
           Funnel.dropoffs := drops;
           Funnel.biggest_dropoff_idx := bi; Funnel.biggest_dropoff := big;
           Funnel.best_stage_idx := be; Funnel.best_conversion := best |}).
Proof.
  intros Hne Hparse Hstages. unfold Funnel.aggregate.
  replace (match records with [] => Raise KeyError | _ :: _ => Ok () end)
    with (@Ok unit ()) by (by destruct records).
  cbn [bind]. rewrite to_datetime_ok.
  2:{ intros d (e & -> & He)%list_elem_of_fmap. by apply Hparse. }
  cbn [bind]. rewrite Hstages. cbn [bind].
  rewrite funnel_metrics_unfold. done.
Qed.

(** X11. How a run of the funnel aggregator with a configured stage
    string ends: [KeyError] on empty data; [ValueError] on a malformed
    date, although the dates are not used afterwards; [ValueError] as
    well when the string names a single stage (no comma), because the
    insight step takes the minimum of an empty column; and otherwise a
    report with one metric per stage, one drop-off per step and both
    insight lines. *)
Theorem funnel_aggregate_outcome (s : string) (records : list Funnel.event) :
  (records = [] ->
   Funnel.aggregate (Funnel.StagesLiteral s) records = Raise KeyError) /\
  (records <> [] ->
   (exists e, e ∈ records /\ parseable (Funnel.date e) = false) ->
   Funnel.aggregate (Funnel.StagesLiteral s) records = Raise ValueError) /\
  (records <> [] ->
   (forall e, e ∈ records -> parseable (Funnel.date e) = true) ->
   has_comma s = false ->
   Funnel.aggregate (Funnel.StagesLiteral s) records = Raise ValueError) /\
  (records <> [] ->
   (forall e, e ∈ records -> parseable (Funnel.date e) = true) ->
   has_comma s = true ->
   exists rep,
     Funnel.aggregate (Funnel.StagesLiteral s) records = Ok rep /\
     Funnel.stages_used rep = Funnel.split_comma s /\
     length (Funnel.funnel_df rep) = S (count_commas s) /\
     length (Funnel.dropoffs rep) = count_commas s /\
     is_Some (Funnel.biggest_dropoff rep) /\
     is_Some (Funnel.best_conversion rep)).
Proof.
  destruct (configured_stages_parts s) as (Hlen & _).
  assert (Hst : Funnel.funnel_stages (Funnel.StagesLiteral s) records
                = Ok (Funnel.split_comma s)) by done.
  split; [by intros ->|]. split; [|split].
  - intros Hne (e & He & Hbad). unfold Funnel.aggregate.
    replace (match records with [] => Raise KeyError | _ :: _ => Ok () end)
      with (@Ok unit ()) by (by destruct records).
    cbn [bind]. rewrite to_datetime_raise; [done|].
    intros Hall. rewrite Hall in Hbad; [done|].
    rewrite map_fmap. apply list_elem_of_fmap. eauto.
  - intros Hne Hparse Hc.
    rewrite (funnel_aggregate_unfold _ _ _ Hne Hparse Hst).
    destruct (has_comma_count s) as [_ Hone]. by rewrite (Hone Hc).
  - intros Hne Hparse Hc.
    rewrite (funnel_aggregate_unfold _ _ _ Hne Hparse Hst).
    destruct (has_comma_count s) as [Hmany _]. specialize (Hmany Hc).
    set (fdf := metrics_from records _ None (Funnel.split_comma s)).
    assert (Hflen : length fdf = S (count_commas s)).
    { unfold fdf. by rewrite metrics_from_length. }
    destruct (dropoff_analysis_lookup fdf) as (drops & Hdrops & Hdlen & _).
    destruct (funnel_insights_ok fdf) as (lo & hi & mlo & mhi & Hmin & Hmax & Hlo & Hhi);
      [lia|].
    cbv zeta. rewrite Hdrops. cbn [bind].
    destruct fdf as [|m0 rest] eqn:E; [done|]. rewrite <- E in *.
    cbn [bind]. rewrite Hmin. cbn [bind]. unfold Funnel.insight at 1.
    rewrite Hlo. cbn [bind lift]. rewrite Hmax. cbn [bind].
    unfold Funnel.insight. rewrite Hhi. cbn [bind lift].
    eexists. split; [done|]. simpl.
    split; [done|]. split; [done|]. split; [lia|]. split; eauto.
Qed.

Lemma funnel_aggregate_outcome_witness :
  exists rep,
    Funnel.aggregate (Funnel.StagesLiteral "lead,qualified,closed") funnel_scenario
      = Ok rep /\
    Funnel.stages_used rep = funnel_scenario_stages.
Proof.
  assert (Hne : funnel_scenario <> []) by discriminate.
  assert (Hparse : forall e, e ∈ funnel_scenario ->
                             parseable (Funnel.date e) = true).
  { intros e He. unfold funnel_scenario in He.
    repeat (apply elem_of_cons in He as [->|He]; [reflexivity|]).
    by apply elem_of_nil in He. }
  destruct (proj2 (proj2 (proj2
              (funnel_aggregate_outcome "lead,qualified,closed" funnel_scenario)))
              Hne Hparse eq_refl)
    as (rep & Hrep & Hstages & _).
  exists rep. split; [exact Hrep|exact Hstages].
Defined.

(** ** Funnel script: the overall conversion rate *)

Lemma Qz_nonzero (n : Z) : 0 < n -> ~ (Qz n == 0)%Q.
Proof. intros H H0. unfold Qz, Qeq in H0. simpl in H0. lia. Qed.

Lemma product_telescopes (df : list Funnel.event) (total : Z) (stages : list string) :
  forall p,
    0 < p ->
    Forall (fun m => 0 < Funnel.users m) (metrics_from df total (Some p) stages) ->
    (Qz (from_option Funnel.users p (last (metrics_from df total (Some p) stages)))
     / Qz p
     == conversion_product (metrics_from df total (Some p) stages))%Q.
Proof.
  induction stages as [|st rest IH]; intros p Hp Hall.
  - simpl. field. by apply Qz_nonzero.
  - cbn [metrics_from] in *. apply Forall_cons in Hall as [Hsu Hall].
    simpl in Hsu. specialize (IH _ Hsu Hall).
    cbn [conversion_product]. rewrite <- IH. rewrite last_cons.
    cbn [metric_for Funnel.stage_conversion].
    replace (0 <? p) with true by (symmetry; by apply Z.ltb_lt).
    destruct (last (metrics_from df total (Some (Funnel.stage_users df st)) rest))
      as [m|]; simpl; field; split; by apply Qz_nonzero.
Qed.

(** X12. The overall conversion rate of the key insights (last stage's
    users over first stage's users, times 100) is reported as 0 when the
    first stage has no users, and when every stage has users it is 100
    times the product of the stage conversions, as fractions, of all
    stages after the first: exactly as rationals, hence within
    floating-point tolerance on the script's float64 values. *)
Theorem total_conversion_is_product (df : list Funnel.event) (stages : list string) :
  exists fm,
    Funnel.funnel_metrics df stages = Ok fm /\
    (forall m0, head fm = Some m0 -> Funnel.users m0 = 0 ->
                total_conversion fm = Ok 0%Q) /\
    (fm <> [] -> Forall (fun m => 0 < Funnel.users m) fm ->
     exists t, total_conversion fm = Ok t /\
               (t == 100 * conversion_product (drop 1 fm))%Q).
Proof.
  eexists. split; [apply funnel_metrics_unfold|].
  set (total := nunique (map Funnel.user_id df)). split.
  - intros m0 Hhead H0. unfold total_conversion. rewrite Hhead. simpl.
    by rewrite H0.
  - intros Hne Hall. destruct stages as [|st rest]; [done|].
    cbn [metrics_from] in *. apply Forall_cons in Hall as [Hsu Hall].
    simpl in Hsu. unfold total_conversion. cbn [head lift bind metric_for Funnel.users].
    replace (0 <? Funnel.stage_users df st) with true
      by (symmetry; by apply Z.ltb_lt).
    rewrite last_cons.
    pose proof (product_telescopes df total rest _ Hsu Hall) as Hprod.
    cbn [drop].
    destruct (last (metrics_from df total (Some (Funnel.stage_users df st)) rest))
      as [m|]; cbn [lift bind from_option Funnel.users] in *;
      (eexists; split; [done|]); rewrite <- Hprod;
      cbn [metric_for Funnel.users]; ring.
Qed.

Lemma total_conversion_is_product_witness :
  exists fm t,
    Funnel.funnel_metrics funnel_scenario funnel_scenario_stages = Ok fm /\
    total_conversion fm = Ok t /\
    (t == 100 * conversion_product (drop 1 fm))%Q.
Proof.
  destruct (total_conversion_is_product funnel_scenario funnel_scenario_stages)
    as (fm & Hfm & _ & Hprod).
  assert (Hfm' : Funnel.funnel_metrics funnel_scenario funnel_scenario_stages
                 = Ok (metrics_from funnel_scenario
                         (nunique (map Funnel.user_id funnel_scenario)) None
                         funnel_scenario_stages))
    by apply funnel_metrics_unfold.
  assert (Hne : fm <> []).
  { rewrite Hfm in Hfm'. injection Hfm' as ->. discriminate. }
  assert (Hall : Forall (fun m => 0 < Funnel.users m) fm).
  { rewrite Hfm in Hfm'. injection Hfm' as ->.
    repeat (apply List.Forall_cons; [vm_compute; reflexivity|]).
    apply List.Forall_nil. }
  destruct (Hprod Hne Hall) as (t & Ht & Heq).
  exists fm, t. split; [exact Hfm|]. split; [exact Ht|exact Heq].
Defined.

(** ** Funnel script: order and repetition of the records *)

Lemma stage_users_ext (df df' : list Funnel.event) (st : string) :
  (forall e, e ∈ df <-> e ∈ df') ->
  Funnel.stage_users df st = Funnel.stage_users df' st.
Proof.
  intros H. unfold Funnel.stage_users. apply nunique_ext. intros u.
  rewrite !map_fmap, !list_elem_of_fmap.
  split; intros (e & -> & [Hs He]%list_elem_of_filter); exists e;
    (split; [done|]); apply list_elem_of_filter; (split; [done|]); by apply H.
Qed.

Lemma metrics_from_ext (df df' : list Funnel.event) (total : Z) (stages : list string) :
  (forall e, e ∈ df <-> e ∈ df') ->
  forall prev, metrics_from df total prev stages = metrics_from df' total prev stages.
Proof.
  intros H. induction stages as [|st rest IH]; intros prev; [done|].
  cbn [metrics_from]. unfold metric_for.
  rewrite !(stage_users_ext df df' st H). by rewrite IH.
Qed.

(** X13. With a configured stage string, only the set of records
    matters: two inputs with the same records, in any order and with any
    repetition, end the same way and give the same report. *)
Theorem funnel_duplicates_ignored
    (s : string) (records records' : list Funnel.event) :
  (forall e, e ∈ records <-> e ∈ records') ->
  Funnel.aggregate (Funnel.StagesLiteral s) records
  = Funnel.aggregate (Funnel.StagesLiteral s) records'.
Proof.
  intros Hsame.
  destruct (decide (records = [])) as [->|Hne].
  { destruct records' as [|e1 l1]; [done|].
    exfalso. eapply elem_of_nil. apply Hsame. by left. }
  assert (Hne' : records' <> []).
  { intros ->. destruct records as [|e0 l0]; [done|].
    eapply elem_of_nil. apply Hsame. by left. }
  assert (Hraise : forall rs, rs <> [] ->
            ~ (forall e, e ∈ rs -> parseable (Funnel.date e) = true) ->
            Funnel.aggregate (Funnel.StagesLiteral s) rs = Raise ValueError).
  { intros rs Hrs Hbad. unfold Funnel.aggregate.
    replace (match rs with [] => Raise KeyError | _ :: _ => Ok () end)
      with (@Ok unit ()) by (by destruct rs).
    cbn [bind]. rewrite to_datetime_raise; [done|].
    intros Hall. apply Hbad. intros e He. apply Hall.
    rewrite map_fmap. apply list_elem_of_fmap. eauto. }
  destruct (decide (Forall (fun e => parseable (Funnel.date e) = true) records))
    as [Hp|Hp]; rewrite Forall_forall in Hp.
  - assert (Hp' : forall e, e ∈ records' -> parseable (Funnel.date e) = true).
    { intros e He. apply Hp. by apply Hsame. }
    rewrite (funnel_aggregate_unfold _ records (Funnel.split_comma s) Hne Hp) by done.
    rewrite (funnel_aggregate_unfold _ records' (Funnel.split_comma s) Hne' Hp') by done.
    assert (Htotal : nunique (map Funnel.user_id records)
                     = nunique (map Funnel.user_id records')).
    { apply nunique_ext. intros u. rewrite !map_fmap, !list_elem_of_fmap.
      split; intros (e & -> & He); exists e; (split; [done|]); by apply Hsame. }
    rewrite Htotal. by rewrite (metrics_from_ext records records' _ _ Hsame).
  - rewrite (Hraise records Hne Hp). symmetry. apply (Hraise records' Hne').
    intros Hall. apply Hp. intros e He. apply Hall. by apply Hsame.
Qed.

Lemma funnel_duplicates_ignored_witness :
  Funnel.aggregate (Funnel.StagesLiteral "lead,closed") (reverse funnel_scenario)
  = Funnel.aggregate (Funnel.StagesLiteral "lead,closed") funnel_scenario.
Proof.
  apply funnel_duplicates_ignored. intros e. apply elem_of_reverse.
Defined.

(** ** Cohort script: elapsed periods of the rows *)

(** X14. With well-formed dates no row has a negative elapsed period:
    the cohort month of a row is never after its activity month, and the
    elapsed period is their difference; every user has a row at elapsed
    period 0, and a user with a single record has only that one. *)
Theorem elapsed_periods_nonnegative (records : list Cohort.event) :
  (forall e, e ∈ records -> parseable (Cohort.date e) = true) ->
  (forall r, r ∈ Cohort.with_periods records ->
     Cohort.cohort_month r <= Cohort.activity_month r /\
     Cohort.period_number r = Cohort.activity_month r - Cohort.cohort_month r /\
     0 <= Cohort.period_number r) /\
  (forall e, e ∈ records ->
     exists r0, r0 ∈ Cohort.with_periods records /\
                Cohort.r_user_id r0 = Cohort.user_id e /\
                Cohort.period_number r0 = 0) /\
  (forall e, e ∈ records ->
     (forall e', e' ∈ records -> Cohort.user_id e' = Cohort.user_id e -> e' = e) ->
     Cohort.period_number (Cohort.row_of records e) = 0).
Proof.
  intros Hparse. split; [|split].
  - intros r Hr. pose proof (period_nonneg records Hparse r Hr) as Hnn.
    apply with_periods_elem in Hr as (e & He & ->). simpl in *. lia.
  - intros e He.
    destruct (first_date_attained records e He) as (e0 & He0 & Hu & Hd).
    exists (Cohort.row_of records e0). split; [apply with_periods_elem; eauto|].
    split; [done|]. simpl.
    rewrite (first_date_same_user records e0 e He0 He Hu), Hd. lia.
  - intros e He Hsingle.
    destruct (first_date_attained records e He) as (e0 & He0 & Hu & Hd).
    rewrite (Hsingle e0 He0 Hu) in Hd. simpl. rewrite <- Hd. lia.
Qed.

Lemma elapsed_periods_nonnegative_witness :
  0 <= Cohort.period_number
         (Cohort.row_of cohort_scenario (Cohort.Event 1 (Ymd 2024 2 5))).
Proof.
  assert (Hparse : forall e, e ∈ cohort_scenario ->
                             parseable (Cohort.date e) = true).
  { intros e He. unfold cohort_scenario in He.
    repeat (apply elem_of_cons in He as [->|He]; [reflexivity|]).
    by apply elem_of_nil in He. }
  assert (Hr : Cohort.row_of cohort_scenario (Cohort.Event 1 (Ymd 2024 2 5))
               ∈ Cohort.with_periods cohort_scenario).
  { apply with_periods_elem. eexists. split; [|reflexivity]. right. left. }
  exact (proj2 (proj2 (proj1 (elapsed_periods_nonnegative cohort_scenario Hparse)
                         _ Hr))).
Defined.

(** ** Cohort script: which cohort is reported as best and worst *)

(** X15. For every input, the best (worst) cohort is the first row, in
    chronological order, whose mean over the retention table's columns at
    positions 1 to 5 is highest (lowest): no row has a higher (lower)
    mean and every earlier row has a strictly lower (higher) one or
    none. *)
Theorem best_worst_cohort_by_position
    (records : list Cohort.event) (rep : Cohort.report) :
  Cohort.aggregate records = Ok rep ->
  let s := Cohort.mean_axis1 (Cohort.iloc_columns (Cohort.retention rep) 1 6) in
  map fst s = Cohort.index (Cohort.retention rep) /\
  (forall b, Cohort.best_cohort rep = Some b ->
     exists n v,
       s !! n = Some (b, Some v) /\
       (forall m j w, s !! m = Some (j, Some w) -> (w <= v)%Q) /\
       (forall m j w, (m < n)%nat -> s !! m = Some (j, Some w) -> (w < v)%Q)) /\
  (forall b, Cohort.worst_cohort rep = Some b ->
     exists n v,
       s !! n = Some (b, Some v) /\
       (forall m j w, s !! m = Some (j, Some w) -> (v <= w)%Q) /\
       (forall m j w, (m < n)%nat -> s !! m = Some (j, Some w) -> (v < w)%Q)).
Proof. apply best_worst_positional. Qed.

Lemma best_worst_cohort_by_position_witness :
  exists rep n v,
    Cohort.aggregate gap_scenario = Ok rep /\
    Cohort.mean_axis1 (Cohort.iloc_columns (Cohort.retention rep) 1 6) !! n
    = Some (648, Some v).
Proof.
  assert (H : exists rep, Cohort.aggregate gap_scenario = Ok rep /\
                          Cohort.best_cohort rep = Some 648).
  { eexists. split; [vm_compute; reflexivity|reflexivity]. }
  destruct H as (rep & Hagg & Hbest).
  destruct (proj1 (proj2 (best_worst_cohort_by_position gap_scenario rep Hagg))
              648 Hbest) as (n & v & Hn & _).
  exists rep, n, v. split; [exact Hagg|exact Hn].
Defined.
